(** * xls/common/strong_int.h: StrongInt, its validators and StrongIntRange

    A shallow embedding of the header.  Native integers are mathematical
    integers of type [Z] kept inside the range of their C++ type, with the
    conversions ([static_cast], integral promotion, usual arithmetic
    conversions) written out.  Validator hooks are events appended to a
    trace; a hook either returns or terminates the process.  Objects that
    are mutated through [this] live in a store addressed by locations, so
    that a returned reference and a returned copy can be told apart. *)

From stdpp Require Import base numbers list strings gmap.
From Stdlib Require Import ZArith Lia Ascii String DecimalString DecimalZ
  DecimalPos.

Local Open Scope Z_scope.

(** ** Native integer types *)

Module Native.

(** The fixed-width integer types of <cstdint>. *)
Inductive Width := W8 | W16 | W32 | W64.

Record IntType := mkIntType { width : Width; is_signed : bool }.

Definition int8_t := mkIntType W8 true.
Definition uint8_t := mkIntType W8 false.
Definition int16_t := mkIntType W16 true.
Definition uint16_t := mkIntType W16 false.
Definition int32_t := mkIntType W32 true.
Definition uint32_t := mkIntType W32 false.
Definition int64_t := mkIntType W64 true.
Definition uint64_t := mkIntType W64 false.
(** [int], [unsigned int] and [size_t] on the LP64 targets XLS builds for. *)
Definition int := int32_t.
Definition unsigned_int := uint32_t.
Definition size_t := uint64_t.

Definition width_bits (w : Width) : Z :=
  match w with W8 => 8 | W16 => 16 | W32 => 32 | W64 => 64 end.

Definition bits (t : IntType) : Z := width_bits (width t).

(** std::numeric_limits<T>::min() and max(). *)
Definition min_value (t : IntType) : Z :=
  if is_signed t then - 2 ^ (bits t - 1) else 0.
Definition max_value (t : IntType) : Z :=
  if is_signed t then 2 ^ (bits t - 1) - 1 else 2 ^ bits t - 1.

Definition in_range (t : IntType) (z : Z) : Prop :=
  min_value t <= z <= max_value t.

Definition in_rangeb (t : IntType) (z : Z) : bool :=
  (min_value t <=? z) && (z <=? max_value t).

(** [static_cast<t>(z)]: the unique value of [t] congruent to [z]
    modulo 2^bits (two's complement for the signed types). *)
Definition static_cast (t : IntType) (z : Z) : Z :=
  if is_signed t
  then (z + 2 ^ (bits t - 1)) mod 2 ^ bits t - 2 ^ (bits t - 1)
  else z mod 2 ^ bits t.

(** Integral promotion: every type narrower than [int] becomes [int]. *)
Definition promote (t : IntType) : IntType :=
  if bits t <? 32 then int else t.

(** Usual arithmetic conversions on two promoted operand types: the wider
    type wins, and at equal width unsigned wins. *)
Definition common_type (t1 t2 : IntType) : IntType :=
  let p1 := promote t1 in
  let p2 := promote t2 in
  if bits p1 <? bits p2 then p2
  else if bits p2 <? bits p1 then p1
  else mkIntType (width p1) (is_signed p1 && is_signed p2).

(** A numeric operand: a value together with its static type. *)
Record Num := mkNum { num_type : IntType; num_value : Z }.

Inductive BinOp :=
| OpAdd | OpSub | OpMul | OpDiv | OpMod | OpShl | OpShr
| OpBitAnd | OpBitOr | OpBitXor.

Inductive CmpOp := CmpEq | CmpNe | CmpLt | CmpLe | CmpGt | CmpGe.

(** The built-in binary operators on operands [a : ta] and [b : tb].
    The result is the type of the expression and its value, or [None]
    where the language leaves the expression without a value (zero
    divisor, unrepresentable quotient, shift count outside the promoted
    left operand).  Overflow of [+ - *] and of left shifts wraps
    around. *)
Definition native_binop (op : BinOp) (ta : IntType) (a : Z)
                        (tb : IntType) (b : Z) : option (IntType * Z) :=
  let ct := common_type ta tb in
  let a' := static_cast ct a in
  let b' := static_cast ct b in
  match op with
  | OpAdd => Some (ct, static_cast ct (a' + b'))
  | OpSub => Some (ct, static_cast ct (a' - b'))
  | OpMul => Some (ct, static_cast ct (a' * b'))
  | OpDiv =>
      if (b' =? 0) || negb (in_rangeb ct (Z.quot a' b')) then None
      else Some (ct, Z.quot a' b')
  | OpMod =>
      if (b' =? 0) || negb (in_rangeb ct (Z.quot a' b')) then None
      else Some (ct, Z.rem a' b')
  | OpBitAnd => Some (ct, static_cast ct (Z.land a' b'))
  | OpBitOr => Some (ct, static_cast ct (Z.lor a' b'))
  | OpBitXor => Some (ct, static_cast ct (Z.lxor a' b'))
  | OpShl =>
      let pt := promote ta in
      let pa := static_cast pt a in
      let pb := static_cast (promote tb) b in
      if (0 <=? pb) && (pb <? bits pt)
      then Some (pt, static_cast pt (Z.shiftl pa pb)) else None
  | OpShr =>
      let pt := promote ta in
      let pa := static_cast pt a in
      let pb := static_cast (promote tb) b in
      if (0 <=? pb) && (pb <? bits pt)
      then Some (pt, Z.shiftr pa pb) else None
  end.

(** The built-in comparisons, after the usual arithmetic conversions. *)
Definition native_cmp (op : CmpOp) (ta : IntType) (a : Z)
                      (tb : IntType) (b : Z) : bool :=
  let ct := common_type ta tb in
  let a' := static_cast ct a in
  let b' := static_cast ct b in
  match op with
  | CmpEq => a' =? b'
  | CmpNe => negb (a' =? b')
  | CmpLt => a' <? b'
  | CmpLe => a' <=? b'
  | CmpGt => a' >? b'
  | CmpGe => a' >=? b'
  end.

(** [++v] and [--v] on a variable of type [t], wrapping at the bounds. *)
Definition native_incr (t : IntType) (v : Z) : Z := static_cast t (v + 1).
Definition native_decr (t : IntType) (v : Z) : Z := static_cast t (v - 1).

End Native.

Import Native.

(** ** Validators *)

(** One call of a validator hook, with the operands it receives. *)
Inductive HookCall :=
| ValidateInit (arg : Z)
| ValidateNegate (value : Z)
| ValidateBitNot (value : Z)
| ValidateAdd (lhs rhs : Z)
| ValidateSubtract (lhs rhs : Z)
| ValidateMultiply (lhs rhs : Z)
| ValidateDivide (lhs rhs : Z)
| ValidateModulo (lhs rhs : Z)
| ValidateLeftShift (lhs rhs : Z)
| ValidateRightShift (lhs rhs : Z)
| ValidateBitAnd (lhs rhs : Z)
| ValidateBitOr (lhs rhs : Z)
| ValidateBitXor (lhs rhs : Z).

(** A validator is stateless.  StrongInt never looks at what a hook
    returns; all a hook can do is return or stop the process
    (XLS_LOG(FATAL)).  [hook_returns V h] tells whether the call [h]
    comes back. *)
Record Validator := mkValidator { hook_returns : HookCall -> bool }.

(** struct NullStrongIntValidator: every hook is a constant function. *)
Definition NullStrongIntValidator : Validator :=
  mkValidator (fun h =>
    match h with
    | ValidateInit _ => true
    | ValidateNegate _ => true
    | ValidateBitNot _ => true
    | ValidateAdd _ _ => true
    | ValidateSubtract _ _ => true
    | ValidateMultiply _ _ => true
    | ValidateDivide _ _ => true
    | ValidateModulo _ _ => true
    | ValidateLeftShift _ _ => true
    | ValidateRightShift _ _ => true
    | ValidateBitAnd _ _ => true
    | ValidateBitOr _ _ => true
    | ValidateBitXor _ _ => true
    end).

(** The custom validator sketched in the header's comment on
    NullStrongIntValidator: ValidateInit is fatal on a negative argument.
    [strict] makes it fatal on zero as well. *)
Definition InitValidator (strict : bool) : Validator :=
  mkValidator (fun h =>
    match h with
    | ValidateInit arg => if strict then 0 <? arg else 0 <=? arg
    | _ => true
    end).

(** ** The StrongInt class *)

(** The tag type, known by the name DEFINE_STRONG_INT_TYPE gives it. *)
Definition Tag := string.

(** template <TagType, NativeType, ValidatorType> class StrongInt: one data
    member.  The three template parameters are part of the type. *)
Record StrongInt (TagType : Tag) (NativeType : IntType)
                 (ValidatorType : Validator) : Type :=
  mkStrongInt { value_ : Z }.

Arguments mkStrongInt {TagType NativeType ValidatorType} value_.
Arguments value_ {TagType NativeType ValidatorType} _.

Definition loc := positive.

(** How a computation ends: with a value, in the process being stopped by
    a validator hook, or in an expression the language gives no value. *)
Inductive Outcome (A : Type) :=
| Returned (a : A)
| Aborted
| Undefined.

Arguments Returned {A} a.
Arguments Aborted {A}.
Arguments Undefined {A}.

Section Instantiation.

Context {TagType : Tag} {NativeType : IntType} {ValidatorType : Validator}.

Local Abbreviation SI := (StrongInt TagType NativeType ValidatorType).
Local Abbreviation ValueType := NativeType (only parsing).

(** The objects of the instantiation that are mutated in place, and the
    hook calls made so far, oldest first. *)
Record State := mkState {
  heap : gmap loc SI;
  hook_trace : list HookCall
}.

Definition M (A : Type) : Type := State -> Outcome A * State.

Definition ret {A} (a : A) : M A := fun s => (Returned a, s).

Definition bind {A B} (m : M A) (k : A -> M B) : M B :=
  fun s =>
    match m s with
    | (Returned a, s') => k a s'
    | (Aborted, s') => (Aborted, s')
    | (Undefined, s') => (Undefined, s')
    end.

Definition undefined {A} : M A := fun s => (Undefined, s).

(** ValidatorType::template hook<...>(...) *)
Definition call_hook (h : HookCall) : M unit :=
  fun s =>
    let s' := mkState (heap s) (hook_trace s ++ [h]) in
    if hook_returns ValidatorType h then (Returned tt, s') else (Aborted, s').

Definition load (l : loc) : M SI :=
  fun s =>
    match heap s !! l with
    | Some x => (Returned x, s)
    | None => (Undefined, s)
    end.

Definition store (l : loc) (x : SI) : M unit :=
  fun s =>
    match heap s !! l with
    | Some _ => (Returned tt, mkState (<[l := x]> (heap s)) (hook_trace s))
    | None => (Undefined, s)
    end.

(** A new object with automatic storage, initialised with [x]. *)
Definition alloc (x : SI) : M loc :=
  fun s =>
    let l := fresh (dom (heap s)) in
    (Returned l, mkState (<[l := x]> (heap s)) (hook_trace s)).

End Instantiation.

Arguments State : clear implicits.
Arguments M : clear implicits.

Declare Scope strong_int_scope.
Delimit Scope strong_int_scope with SI.
Notation "x <- m ;; k" := (bind m (fun x => k))
  (at level 100, m at next level, right associativity) : strong_int_scope.
Notation "m ;;; k" := (bind m (fun _ => k))
  (at level 100, right associativity) : strong_int_scope.
Local Open Scope strong_int_scope.

#[global] Instance BinOp_eq_dec : EqDecision BinOp.
Proof. solve_decision. Defined.

(** How a hook's second parameter is declared: templated on the operand's
    own type (ValidateMultiply<T, U>(T, U)), or fixed to int64_t
    (ValidateLeftShift<T>(T, int64_t)), which converts the operand. *)
Definition templated_rhs (hook : Z -> Z -> HookCall) (lhs : Z) (rhs : Num)
  : HookCall :=
  hook lhs (num_value rhs).

Definition int64_rhs (hook : Z -> Z -> HookCall) (lhs : Z) (rhs : Num)
  : HookCall :=
  hook lhs (static_cast int64_t (num_value rhs)).

(** std::ostream, as the characters written so far. *)
Definition ostream := string.

(** The rendering of an integer by std::ostream in its default state. *)
Definition decimal (z : Z) : string := NilZero.string_of_int (Z.to_int z).

(** The one character whose code is [v], as a stream writes a char. *)
Definition glyph (v : Z) : string :=
  String (ascii_of_N (Z.to_N (v mod 256))) EmptyString.

(** std::ostream::operator<< on a value [v] of arithmetic type [t].  The
    8-bit types are signed char and unsigned char, which the stream writes
    as one character; every wider type is written as a number. *)
Definition std_ostream_insert (os : ostream) (t : IntType) (v : Z) : ostream :=
  match width t with
  | W8 => String.append os (glyph v)
  | _ => String.append os (decimal v)
  end.

Section StrongIntClass.

Context {TagType : Tag} {NativeType : IntType} {ValidatorType : Validator}.

Local Abbreviation SI := (StrongInt TagType NativeType ValidatorType).
Local Abbreviation ValueType := NativeType (only parsing).
Local Abbreviation MSI := (M TagType NativeType ValidatorType).

(** static constexpr std::string_view TypeName() *)
Definition TypeName : string := TagType.

(** constexpr StrongInt(): NativeType() is zero. *)
Definition StrongInt_default : MSI SI :=
  call_hook (ValidateInit 0) ;;;
  ret (mkStrongInt 0).

(** explicit constexpr StrongInt(T init_value) *)
Definition StrongInt_init (init_value : Num) : MSI SI :=
  call_hook (ValidateInit (num_value init_value)) ;;;
  ret (mkStrongInt (static_cast ValueType (num_value init_value))).

(** constexpr ValueType value() const *)
Definition value (x : SI) : Z := value_ x.

(** static constexpr ValueType Max() and Min() *)
Definition Max : Z := max_value ValueType.
Definition Min : Z := min_value ValueType.

(** StrongInt &operator++(): the result is [*this], the object at [this]. *)
Definition operator_preinc (this : loc) : MSI loc :=
  x <- load this ;;
  call_hook (ValidateAdd (value_ x) (static_cast ValueType 1)) ;;;
  store this (mkStrongInt (native_incr ValueType (value_ x))) ;;;
  ret this.

(** const StrongInt operator++(int): the result is the copy [temp]. *)
Definition operator_postinc (this : loc) : MSI SI :=
  x <- load this ;;
  call_hook (ValidateAdd (value_ x) (static_cast ValueType 1)) ;;;
  temp <- load this ;;
  store this (mkStrongInt (native_incr ValueType (value_ temp))) ;;;
  ret temp.

(** StrongInt &operator--() *)
Definition operator_predec (this : loc) : MSI loc :=
  x <- load this ;;
  call_hook (ValidateSubtract (value_ x) (static_cast ValueType 1)) ;;;
  store this (mkStrongInt (native_decr ValueType (value_ x))) ;;;
  ret this.

(** const StrongInt operator--(int) *)
Definition operator_postdec (this : loc) : MSI SI :=
  x <- load this ;;
  call_hook (ValidateSubtract (value_ x) (static_cast ValueType 1)) ;;;
  temp <- load this ;;
  store this (mkStrongInt (native_decr ValueType (value_ temp))) ;;;
  ret temp.

(** struct Hasher: size_t operator()(const StrongInt &x) const *)
Definition Hasher (x : SI) : Z := static_cast size_t (value x).

(** struct std::hash<StrongInt<...>> : StrongInt<...>::Hasher {} *)
Definition std_hash (x : SI) : Z := Hasher x.

(** The three operator<<(std::ostream &, StrongInt) templates. *)
Definition ostream_insert_generic (os : ostream) (arg : SI) : ostream :=
  std_ostream_insert os ValueType (value arg).

Definition ostream_insert_int8 (os : ostream) (arg : SI) : ostream :=
  std_ostream_insert os int (static_cast int (value arg)).

Definition ostream_insert_uint8 (os : ostream) (arg : SI) : ostream :=
  std_ostream_insert os unsigned_int (static_cast unsigned_int (value arg)).

(** [os << arg]: partial ordering of the templates picks the one
    specialised for the native type when there is one. *)
Definition operator_shl_ostream (os : ostream) (arg : SI) : ostream :=
  match width ValueType, is_signed ValueType with
  | W8, true => ostream_insert_int8 os arg
  | W8, false => ostream_insert_uint8 os arg
  | _, _ => ostream_insert_generic os arg
  end.

(** #define STRONG_INT_VS_STRONG_INT_BINARY_OP(op, validator) *)
Definition STRONG_INT_VS_STRONG_INT_BINARY_OP
    (op : BinOp) (validator : Z -> Z -> HookCall) (lhs rhs : SI) : MSI SI :=
  call_hook (validator (value lhs) (value rhs)) ;;;
  match native_binop op ValueType (value lhs) ValueType (value rhs) with
  | Some (_, r) => StrongInt_init (mkNum ValueType (static_cast ValueType r))
  | None => undefined
  end.

(** #define STRONG_INT_VS_NUMERIC_BINARY_OP(op, validator) *)
Definition STRONG_INT_VS_NUMERIC_BINARY_OP
    (op : BinOp) (validator : Z -> Num -> HookCall) (lhs : SI) (rhs : Num)
  : MSI SI :=
  call_hook (validator (value lhs) rhs) ;;;
  match native_binop op ValueType (value lhs) (num_type rhs) (num_value rhs) with
  | Some (_, r) => StrongInt_init (mkNum ValueType (static_cast ValueType r))
  | None => undefined
  end.

(** #define NUMERIC_VS_STRONG_INT_BINARY_OP(op, validator) *)
Definition NUMERIC_VS_STRONG_INT_BINARY_OP
    (op : BinOp) (validator : Z -> Num -> HookCall) (lhs : Num) (rhs : SI)
  : MSI SI :=
  call_hook (validator (value rhs) lhs) ;;;
  match native_binop op ValueType (value rhs) (num_type lhs) (num_value lhs) with
  | Some (_, r) => StrongInt_init (mkNum ValueType (static_cast ValueType r))
  | None => undefined
  end.

(** #define STRONG_INT_COMPARISON_OP(op) *)
Definition STRONG_INT_COMPARISON_OP (op : CmpOp) (lhs rhs : SI) : MSI bool :=
  ret (native_cmp op ValueType (value lhs) ValueType (value rhs)).

(** An operand of a binary expression. *)
Inductive Operand :=
| Strong (x : SI)
| Numeric (n : Num).

(** An operator template: the operator it overloads and, for operands it
    accepts, its body. *)
Definition OperatorTemplate : Type :=
  BinOp * (Operand -> Operand -> option (MSI SI)).

Definition strong_vs_strong (op : BinOp) (validator : Z -> Z -> HookCall)
  : OperatorTemplate :=
  (op, fun lhs rhs =>
         match lhs, rhs with
         | Strong a, Strong b =>
             Some (STRONG_INT_VS_STRONG_INT_BINARY_OP op validator a b)
         | _, _ => None
         end).

Definition strong_vs_numeric (op : BinOp) (validator : Z -> Num -> HookCall)
  : OperatorTemplate :=
  (op, fun lhs rhs =>
         match lhs, rhs with
         | Strong a, Numeric n =>
             Some (STRONG_INT_VS_NUMERIC_BINARY_OP op validator a n)
         | _, _ => None
         end).

Definition numeric_vs_strong (op : BinOp) (validator : Z -> Num -> HookCall)
  : OperatorTemplate :=
  (op, fun lhs rhs =>
         match lhs, rhs with
         | Numeric n, Strong b =>
             Some (NUMERIC_VS_STRONG_INT_BINARY_OP op validator n b)
         | _, _ => None
         end).

(** The uses of the three macros, in the order of the header. *)
Definition binary_operators : list OperatorTemplate :=
  [ strong_vs_strong OpAdd ValidateAdd;
    strong_vs_strong OpSub ValidateSubtract;
    strong_vs_strong OpBitAnd ValidateBitAnd;
    strong_vs_strong OpBitOr ValidateBitOr;
    strong_vs_strong OpBitXor ValidateBitXor;
    strong_vs_numeric OpMul (templated_rhs ValidateMultiply);
    numeric_vs_strong OpMul (templated_rhs ValidateMultiply);
    strong_vs_numeric OpDiv (templated_rhs ValidateDivide);
    strong_vs_numeric OpMod (templated_rhs ValidateModulo);
    strong_vs_numeric OpShl (int64_rhs ValidateLeftShift);
    strong_vs_numeric OpShr (int64_rhs ValidateRightShift) ].

(** Overload resolution for [lhs op rhs] among the operators above: the
    template for [op] that accepts the operands, or [None] when the
    header declares no such operator and the expression does not
    compile as a StrongInt operation. *)
Fixpoint resolve (candidates : list OperatorTemplate) (op : BinOp)
                 (lhs rhs : Operand) : option (MSI SI) :=
  match candidates with
  | [] => None
  | (op', body) :: rest =>
      if decide (op' = op)
      then match body lhs rhs with
           | Some m => Some m
           | None => resolve rest op lhs rhs
           end
      else resolve rest op lhs rhs
  end.

Definition binary_expr (op : BinOp) (lhs rhs : Operand) : option (MSI SI) :=
  resolve binary_operators op lhs rhs.

End StrongIntClass.

(** ** StrongIntRange *)

Section Range.

Context {TagType : Tag} {NativeType : IntType} {ValidatorType : Validator}.

Local Abbreviation IntType := (StrongInt TagType NativeType ValidatorType).
Local Abbreviation MSI := (M TagType NativeType ValidatorType).

(** class StrongIntRangeIterator: one data member. *)
Record StrongIntRangeIterator := mkIterator { current_ : IntType }.

(** explicit StrongIntRangeIterator(IntType initial) *)
Definition StrongIntRangeIterator_init (initial : IntType)
  : StrongIntRangeIterator :=
  mkIterator initial.

(** bool operator!=(const StrongIntRangeIterator &other) const *)
Definition iterator_ne (this other : StrongIntRangeIterator) : MSI bool :=
  STRONG_INT_COMPARISON_OP CmpNe (current_ this) (current_ other).

(** IntType operator*() const *)
Definition iterator_deref (this : StrongIntRangeIterator) : IntType :=
  current_ this.

(** const StrongIntRangeIterator &operator++().  An iterator object in the
    store is its member [current_], at the iterator's own address. *)
Definition iterator_preinc (this : loc) : MSI loc :=
  operator_preinc this ;;;
  ret this.

Record StrongIntRange := mkRange {
  begin_ : StrongIntRangeIterator;
  end_ : StrongIntRangeIterator
}.

(** explicit StrongIntRange(IntType end) *)
Definition StrongIntRange_end (end' : IntType) : MSI StrongIntRange :=
  zero <- StrongInt_init (mkNum int 0) ;;
  ret (mkRange (StrongIntRangeIterator_init zero)
               (StrongIntRangeIterator_init end')).

(** StrongIntRange(IntType begin, IntType end) *)
Definition StrongIntRange_begin_end (begin' end' : IntType)
  : MSI StrongIntRange :=
  ret (mkRange (StrongIntRangeIterator_init begin')
               (StrongIntRangeIterator_init end')).

(** StrongIntRangeIterator begin() const and end() const *)
Definition range_begin (r : StrongIntRange) : StrongIntRangeIterator :=
  begin_ r.
Definition range_end (r : StrongIntRange) : StrongIntRangeIterator :=
  end_ r.

(** MakeStrongIntRange(end) and MakeStrongIntRange(begin, end) *)
Definition MakeStrongIntRange_end (end' : IntType) : MSI StrongIntRange :=
  StrongIntRange_end end'.
Definition MakeStrongIntRange_begin_end (begin' end' : IntType)
  : MSI StrongIntRange :=
  StrongIntRange_begin_end begin' end'.

(** The loop of [for (IntType i : range) body]:
      for (; it != end; ++it) { IntType i = *it; body }
    with [it] a local iterator object.  The result lists the values bound
    to [i], in order; it is [None] when [fuel] tests of the condition did
    not see the loop end. *)
Fixpoint range_for_loop (fuel : nat) (it : loc) (end' : StrongIntRangeIterator)
  : MSI (option (list IntType)) :=
  match fuel with
  | O => ret None
  | S fuel' =>
      cur <- load it ;;
      continue <- iterator_ne (mkIterator cur) end' ;;
      if continue : bool then
        let i := iterator_deref (mkIterator cur) in
        iterator_preinc it ;;;
        rest <- range_for_loop fuel' it end' ;;
        ret (option_map (cons i) rest)
      else ret (Some [])
  end.

(** [for (IntType i : r)]: [auto it = r.begin(), end = r.end();] then the
    loop. *)
Definition range_for (fuel : nat) (r : StrongIntRange)
  : MSI (option (list IntType)) :=
  it <- alloc (current_ (range_begin r)) ;;
  range_for_loop fuel it (range_end r).

End Range.

(** ** A hash table keyed by StrongInt *)

Section UnorderedMap.

Context {TagType : Tag} {NativeType : IntType} {ValidatorType : Validator}.
Context {V : Type}.

Local Abbreviation Key := (StrongInt TagType NativeType ValidatorType).
Local Abbreviation MSI := (M TagType NativeType ValidatorType).

(** std::unordered_map<Key, V> with its default Hash = std::hash<Key> and
    KeyEqual = std::equal_to<Key>, which calls operator==.  Separate
    chaining over a fixed number of buckets. *)
Record unordered_map := mkMap { buckets : list (list (Key * V)) }.

Definition unordered_map_new (bucket_count : nat) : unordered_map :=
  mkMap (replicate bucket_count []).

Definition bucket_index (m : unordered_map) (k : Key) : nat :=
  Z.to_nat (std_hash k mod Z.of_nat (List.length (buckets m))).

Fixpoint bucket_find (b : list (Key * V)) (k : Key) : MSI (option V) :=
  match b with
  | [] => ret None
  | (k', v) :: rest =>
      same <- STRONG_INT_COMPARISON_OP CmpEq k' k ;;
      if same : bool then ret (Some v) else bucket_find rest k
  end.

(** find(k), giving the mapped value. *)
Definition map_find (m : unordered_map) (k : Key) : MSI (option V) :=
  match buckets m !! bucket_index m k with
  | Some b => bucket_find b k
  | None => ret None
  end.

(** insert({k, v}): no effect when an equal key is present. *)
Definition map_insert (m : unordered_map) (k : Key) (v : V)
  : MSI unordered_map :=
  found <- map_find m k ;;
  match found with
  | Some _ => ret m
  | None => ret (mkMap (alter (cons (k, v)) (bucket_index m k) (buckets m)))
  end.

End UnorderedMap.

Arguments unordered_map : clear implicits.
Arguments StrongIntRange : clear implicits.
Arguments StrongIntRangeIterator : clear implicits.
Arguments Operand : clear implicits.

(** #define DEFINE_STRONG_INT_TYPE(type_name, value_type) *)
Definition DEFINE_STRONG_INT_TYPE (type_name : string) (value_type : IntType)
  : Type :=
  StrongInt type_name value_type NullStrongIntValidator.

(** The strong types of the header's own examples. *)
Definition MyStrongInt8 : Type := DEFINE_STRONG_INT_TYPE "MyStrongInt8" int8_t.
Definition Bytes : Type := DEFINE_STRONG_INT_TYPE "Bytes" int64_t.

(** ** Vocabulary of the statements *)

(** The operators on unbounded integers. *)
Definition Z_binop (op : BinOp) : Z -> Z -> Z :=
  match op with
  | OpAdd => Z.add
  | OpSub => Z.sub
  | OpMul => Z.mul
  | OpDiv => Z.quot
  | OpMod => Z.rem
  | OpShl => Z.shiftl
  | OpShr => Z.shiftr
  | OpBitAnd => Z.land
  | OpBitOr => Z.lor
  | OpBitXor => Z.lxor
  end.

Definition Z_cmp (op : CmpOp) : Z -> Z -> bool :=
  match op with
  | CmpEq => Z.eqb
  | CmpNe => fun a b => negb (Z.eqb a b)
  | CmpLt => Z.ltb
  | CmpLe => Z.leb
  | CmpGt => Z.gtb
  | CmpGe => Z.geb
  end.

(** The hook that belongs to each operator. *)
Definition binary_hook (op : BinOp) : Z -> Z -> HookCall :=
  match op with
  | OpAdd => ValidateAdd
  | OpSub => ValidateSubtract
  | OpMul => ValidateMultiply
  | OpDiv => ValidateDivide
  | OpMod => ValidateModulo
  | OpShl => ValidateLeftShift
  | OpShr => ValidateRightShift
  | OpBitAnd => ValidateBitAnd
  | OpBitOr => ValidateBitOr
  | OpBitXor => ValidateBitXor
  end.

(** The hook call made for [lhs op rhs] with a numeric [rhs]. *)
Definition numeric_hook (op : BinOp) (lhs : Z) (rhs : Num) : HookCall :=
  match op with
  | OpShl | OpShr => int64_rhs (binary_hook op) lhs rhs
  | _ => templated_rhs (binary_hook op) lhs rhs
  end.

(** The state [s] after the hook calls [calls]. *)
Definition log {TagType NativeType ValidatorType}
    (s : State TagType NativeType ValidatorType) (calls : list HookCall)
  : State TagType NativeType ValidatorType :=
  mkState (heap s) (hook_trace s ++ calls).

(** A state with no object and no hook call. *)
Definition initial_state {TagType NativeType ValidatorType}
  : State TagType NativeType ValidatorType :=
  mkState ∅ [].

(** The first [n] values a variable of type [t] takes under repeated [++],
    starting from [cur]. *)
Fixpoint successors (t : IntType) (cur : Z) (n : nat) : list Z :=
  match n with
  | O => []
  | S n' => cur :: successors t (native_incr t cur) n'
  end.

(** The number of [++] steps that lead from [b] to [e] in type [t]. *)
Definition distance (t : IntType) (b e : Z) : nat :=
  Z.to_nat ((e - b) mod 2 ^ bits t).

(** Reading a decimal numeral back. *)
Definition read_decimal (s : string) : option Z :=
  option_map Z.of_int (NilZero.int_of_string s).

(** Every value of an 8-bit native type, signed or unsigned. *)
Definition eight_bit_values : list Z := seqZ (-128) 384.

(** [v] is written as a numeral that reads back as [v] and differs from
    the character of code [v]. *)
Definition renders_as_number (v : Z) : bool :=
  match read_decimal (decimal v) with
  | Some v' => (v' =? v) && negb (String.eqb (decimal v) (glyph v))
  | None => false
  end.

(** ** The rest of the class: accessors, unary operators, op-assign *)

(** [v op= b] on a variable [v] of type [t]: the built-in operator, then
    the conversion of its result back to [t]. *)
Definition native_assign_op (op : BinOp) (t : IntType) (v : Z)
                            (tb : IntType) (b : Z) : option Z :=
  match native_binop op t v tb b with
  | Some (_, r) => Some (static_cast t r)
  | None => None
  end.

(** The built-in [-v] and [~v] on an operand [v : t]: the operand is
    promoted, and the expression has the promoted type.  Negation wraps
    like the other arithmetic. *)
Definition native_neg (t : IntType) (v : Z) : IntType * Z :=
  let pt := promote t in
  (pt, static_cast pt (- static_cast pt v)).

Definition native_bitnot (t : IntType) (v : Z) : IntType * Z :=
  let pt := promote t in
  (pt, static_cast pt (Z.lnot (static_cast pt v))).

Section Members.

Context {TagType : Tag} {NativeType : IntType} {ValidatorType : Validator}.

Local Abbreviation SI := (StrongInt TagType NativeType ValidatorType).
Local Abbreviation ValueType := NativeType (only parsing).
Local Abbreviation MSI := (M TagType NativeType ValidatorType).

(** template <typename ValType> constexpr ValType value() const *)
Definition value_as (ValType : IntType) (x : SI) : Z :=
  static_cast ValType (value_ x).

(** template <typename T> constexpr explicit operator T() const *)
Definition operator_T (T : IntType) (x : SI) : Z :=
  static_cast T (value_ x).

(** bool operator!() const: [value_ == 0], the literal being an int. *)
Definition operator_not (x : SI) : MSI bool :=
  ret (native_cmp CmpEq ValueType (value_ x) int 0).

(** const StrongInt operator+() const *)
Definition operator_plus (x : SI) : MSI SI :=
  StrongInt_init (mkNum ValueType (value_ x)).

(** const StrongInt operator-() const: the constructor receives the
    negation in its promoted type. *)
Definition operator_neg (x : SI) : MSI SI :=
  call_hook (ValidateNegate (value_ x)) ;;;
  let (t, z) := native_neg ValueType (value_ x) in
  StrongInt_init (mkNum t z).

(** const StrongInt operator~() const: the constructor receives
    ValueType(~value_). *)
Definition operator_bitnot (x : SI) : MSI SI :=
  call_hook (ValidateBitNot (value_ x)) ;;;
  let (_, z) := native_bitnot ValueType (value_ x) in
  StrongInt_init (mkNum ValueType (static_cast ValueType z)).

(** The shape the ten action-assignment operators share: the hook on
    the current value, then [value_ op= arg], then [return *this]. *)
Definition compound_assign (op : BinOp) (hook : Z -> HookCall)
    (arg_type : IntType) (arg : Z) (this : loc) : MSI loc :=
  x <- load this ;;
  call_hook (hook (value_ x)) ;;;
  cur <- load this ;;
  match native_assign_op op ValueType (value_ cur) arg_type arg with
  | Some r => store this (mkStrongInt r) ;;; ret this
  | None => undefined
  end.

(** StrongInt &operator+=(StrongInt arg) *)
Definition operator_add_assign (this : loc) (arg : SI) : MSI loc :=
  compound_assign OpAdd (fun v => ValidateAdd v (value arg))
                  ValueType (value arg) this.

(** StrongInt &operator-=(StrongInt arg) *)
Definition operator_sub_assign (this : loc) (arg : SI) : MSI loc :=
  compound_assign OpSub (fun v => ValidateSubtract v (value arg))
                  ValueType (value arg) this.

(** template <typename ArgType> StrongInt &operator*=(ArgType arg) *)
Definition operator_mul_assign (this : loc) (arg : Num) : MSI loc :=
  compound_assign OpMul (fun v => ValidateMultiply v (num_value arg))
                  (num_type arg) (num_value arg) this.

(** template <typename ArgType> StrongInt &operator/=(ArgType arg) *)
Definition operator_div_assign (this : loc) (arg : Num) : MSI loc :=
  compound_assign OpDiv (fun v => ValidateDivide v (num_value arg))
                  (num_type arg) (num_value arg) this.

(** template <typename ArgType> StrongInt &operator%=(ArgType arg) *)
Definition operator_mod_assign (this : loc) (arg : Num) : MSI loc :=
  compound_assign OpMod (fun v => ValidateModulo v (num_value arg))
                  (num_type arg) (num_value arg) this.

(** StrongInt &operator<<=(int64_t arg) *)
Definition operator_shl_assign (this : loc) (arg : Z) : MSI loc :=
  compound_assign OpShl (fun v => ValidateLeftShift v arg) int64_t arg this.

(** StrongInt &operator>>=(int64_t arg) *)
Definition operator_shr_assign (this : loc) (arg : Z) : MSI loc :=
  compound_assign OpShr (fun v => ValidateRightShift v arg) int64_t arg this.

(** StrongInt &operator&=(StrongInt arg) *)
Definition operator_and_assign (this : loc) (arg : SI) : MSI loc :=
  compound_assign OpBitAnd (fun v => ValidateBitAnd v (value arg))
                  ValueType (value arg) this.

(** StrongInt &operator|=(StrongInt arg) *)
Definition operator_or_assign (this : loc) (arg : SI) : MSI loc :=
  compound_assign OpBitOr (fun v => ValidateBitOr v (value arg))
                  ValueType (value arg) this.

(** StrongInt &operator^=(StrongInt arg) *)
Definition operator_xor_assign (this : loc) (arg : SI) : MSI loc :=
  compound_assign OpBitXor (fun v => ValidateBitXor v (value arg))
                  ValueType (value arg) this.

(** [x op= y] for a StrongInt [y]: the member that [op=] names, if any. *)
Definition strong_assign (op : BinOp) : option (loc -> SI -> MSI loc) :=
  match op with
  | OpAdd => Some operator_add_assign
  | OpSub => Some operator_sub_assign
  | OpBitAnd => Some operator_and_assign
  | OpBitOr => Some operator_or_assign
  | OpBitXor => Some operator_xor_assign
  | _ => None
  end.

(** [x op= n] for a numeric [n]: the member that [op=] names, if any.
    The shift members take an int64_t, to which [n] is converted at the
    call. *)
Definition numeric_assign (op : BinOp) : option (loc -> Num -> MSI loc) :=
  match op with
  | OpMul => Some operator_mul_assign
  | OpDiv => Some operator_div_assign
  | OpMod => Some operator_mod_assign
  | OpShl =>
      Some (fun this n =>
              operator_shl_assign this (static_cast int64_t (num_value n)))
  | OpShr =>
      Some (fun this n =>
              operator_shr_assign this (static_cast int64_t (num_value n)))
  | _ => None
  end.

(** Every object of the store holds a value of the native type. *)
Definition heap_in_range (s : State TagType NativeType ValidatorType) : Prop :=
  forall (l : loc) (x : SI), heap s !! l = Some x -> in_range ValueType (value x).

End Members.

(** Whether an operand is a StrongInt. *)
Definition is_strong {TagType NativeType ValidatorType}
    (o : Operand TagType NativeType ValidatorType) : bool :=
  match o with
  | Strong _ => true
  | Numeric _ => false
  end.

(** The header's list of supported binary operations: [+ - & | ^] between
    two StrongInt, [* / % << >>] between a StrongInt and a numeric type. *)
Definition documented (op : BinOp) (lhs_strong rhs_strong : bool) : bool :=
  match op with
  | OpAdd | OpSub | OpBitAnd | OpBitOr | OpBitXor => lhs_strong && rhs_strong
  | OpMul | OpDiv | OpMod | OpShl | OpShr => lhs_strong && negb rhs_strong
  end.

(** A validator whose add and subtract hooks are fatal when the exact
    result leaves the native type [t]. *)
Definition OverflowValidator (t : IntType) : Validator :=
  mkValidator (fun h =>
    match h with
    | ValidateAdd lhs rhs => in_rangeb t (lhs + rhs)
    | ValidateSubtract lhs rhs => in_rangeb t (lhs - rhs)
    | _ => true
    end).


(** * Properties *)

(** ** Conversions between native types *)

Lemma bits_bounds (t : IntType) : 8 <= bits t <= 64.
Proof. unfold bits. destruct (width t); simpl; lia. Qed.

Lemma modulus_pos (t : IntType) : 0 < 2 ^ bits t.
Proof. pose proof (bits_bounds t). apply Z.pow_pos_nonneg; lia. Qed.

Lemma modulus_split (t : IntType) : 2 ^ bits t = 2 * 2 ^ (bits t - 1).
Proof.
  pose proof (bits_bounds t).
  rewrite <- Z.pow_succ_r by lia. f_equal. lia.
Qed.

Lemma half_modulus_pos (t : IntType) : 0 < 2 ^ (bits t - 1).
Proof. pose proof (bits_bounds t). apply Z.pow_pos_nonneg; lia. Qed.

Lemma in_rangeb_spec (t : IntType) (z : Z) :
  in_rangeb t z = true <-> in_range t z.
Proof.
  unfold in_rangeb, in_range. rewrite andb_true_iff, !Z.leb_le. tauto.
Qed.

Lemma static_cast_in_range (t : IntType) (z : Z) :
  in_range t (static_cast t z).
Proof.
  unfold in_range, static_cast, min_value, max_value.
  pose proof (half_modulus_pos t) as Hh. pose proof (modulus_split t) as Hm.
  destruct (is_signed t).
  - pose proof (Z.mod_pos_bound (z + 2 ^ (bits t - 1)) (2 ^ bits t)). lia.
  - pose proof (Z.mod_pos_bound z (2 ^ bits t)). lia.
Qed.

Lemma static_cast_id (t : IntType) (z : Z) :
  in_range t z -> static_cast t z = z.
Proof.
  unfold in_range, static_cast, min_value, max_value.
  pose proof (half_modulus_pos t) as Hh. pose proof (modulus_split t) as Hm.
  destruct (is_signed t); intros Hz.
  - rewrite Z.mod_small by lia. lia.
  - apply Z.mod_small. lia.
Qed.

Lemma static_cast_mod (t : IntType) (z : Z) :
  static_cast t z mod 2 ^ bits t = z mod 2 ^ bits t.
Proof.
  unfold static_cast.
  pose proof (half_modulus_pos t) as Hh. pose proof (modulus_split t) as Hm.
  destruct (is_signed t).
  - rewrite Zminus_mod_idemp_l. f_equal. lia.
  - apply Z.mod_mod. lia.
Qed.

Lemma static_cast_congr (t : IntType) (a b : Z) :
  a mod 2 ^ bits t = b mod 2 ^ bits t -> static_cast t a = static_cast t b.
Proof.
  intros Hab. unfold static_cast.
  destruct (is_signed t).
  - f_equal. rewrite <- (Zplus_mod_idemp_l a), <- (Zplus_mod_idemp_l b).
    now rewrite Hab.
  - exact Hab.
Qed.

Lemma mod_pow2_narrow (a n m : Z) :
  0 <= n <= m -> (a mod 2 ^ m) mod 2 ^ n = a mod 2 ^ n.
Proof.
  intros Hnm.
  rewrite Z.mod_mod_divide; [reflexivity|].
  exists (2 ^ (m - n)). rewrite <- Z.pow_add_r by lia. f_equal. lia.
Qed.

Lemma static_cast_narrow (t t' : IntType) (z : Z) :
  bits t <= bits t' -> static_cast t (static_cast t' z) = static_cast t z.
Proof.
  intros Hle. apply static_cast_congr.
  pose proof (bits_bounds t).
  rewrite <- (mod_pow2_narrow (static_cast t' z) (bits t) (bits t')) by lia.
  rewrite static_cast_mod. apply mod_pow2_narrow. lia.
Qed.

Lemma static_cast_idem (t : IntType) (z : Z) :
  static_cast t (static_cast t z) = static_cast t z.
Proof. apply static_cast_narrow. lia. Qed.

Lemma static_cast_one (t : IntType) : static_cast t 1 = 1.
Proof. destruct t as [[] []]; reflexivity. Qed.

Lemma static_cast_zero (t : IntType) : static_cast t 0 = 0.
Proof. destruct t as [[] []]; reflexivity. Qed.

Lemma bits_promote (t : IntType) : bits t <= bits (promote t).
Proof.
  unfold promote.
  destruct (bits t <? 32) eqn:E; simpl; unfold bits in *; simpl; lia.
Qed.

Lemma bits_common_type_l (t1 t2 : IntType) :
  bits t1 <= bits (common_type t1 t2).
Proof.
  pose proof (bits_promote t1). pose proof (bits_promote t2).
  unfold common_type.
  destruct (bits (promote t1) <? bits (promote t2)) eqn:E1; [lia|].
  destruct (bits (promote t2) <? bits (promote t1)) eqn:E2; [lia|].
  unfold bits at 2. simpl. fold (bits (promote t1)). lia.
Qed.

Lemma in_range_promote (t : IntType) (z : Z) :
  in_range t z -> in_range (promote t) z.
Proof.
  unfold promote, in_range, min_value, max_value, bits.
  destruct t as [[] []]; simpl; lia.
Qed.

Lemma common_type_same (t : IntType) : common_type t t = promote t.
Proof. destruct t as [[] []]; reflexivity. Qed.

Lemma in_range_width (t : IntType) (a b : Z) :
  in_range t a -> in_range t b -> - 2 ^ bits t < b - a < 2 ^ bits t.
Proof.
  unfold in_range, min_value, max_value.
  pose proof (modulus_split t). pose proof (half_modulus_pos t).
  destruct (is_signed t); lia.
Qed.

(** Multiplication wraps: whatever the type of the numeric operand, the
    product converted back to [ta] is the exact product reduced to [ta]. *)
Lemma native_mul_wraps (ta tb : IntType) (a b : Z) :
  exists z, native_binop OpMul ta a tb b = Some (common_type ta tb, z) /\
            static_cast ta z = static_cast ta (a * b).
Proof.
  eexists. split; [reflexivity|].
  pose proof (bits_common_type_l ta tb) as Hbits.
  pose proof (bits_bounds ta) as Hta.
  rewrite static_cast_narrow by assumption.
  apply static_cast_congr.
  set (ct := common_type ta tb) in *.
  rewrite Zmult_mod.
  rewrite <- (mod_pow2_narrow (static_cast ct a) (bits ta) (bits ct)) by lia.
  rewrite <- (mod_pow2_narrow (static_cast ct b) (bits ta) (bits ct)) by lia.
  rewrite !static_cast_mod, !mod_pow2_narrow by lia.
  now rewrite <- Zmult_mod.
Qed.

(** Operands of one type: the five operators between two StrongInt reduce
    to the operator on unbounded integers followed by the conversion. *)
Lemma native_same_type (t : IntType) (op : BinOp) (a b : Z) :
  In op [OpAdd; OpSub; OpBitAnd; OpBitOr; OpBitXor] ->
  in_range t a -> in_range t b ->
  exists t' r, native_binop op t a t b = Some (t', r) /\
               static_cast t r = static_cast t (Z_binop op a b).
Proof.
  intros Hop Ha Hb.
  exists (promote t).
  assert (Ha' : static_cast (promote t) a = a)
    by (apply static_cast_id, in_range_promote, Ha).
  assert (Hb' : static_cast (promote t) b = b)
    by (apply static_cast_id, in_range_promote, Hb).
  pose proof (bits_promote t) as Hbits.
  simpl in Hop.
  destruct Hop as [<-|[<-|[<-|[<-|[<-|[]]]]]];
    unfold native_binop; rewrite common_type_same, Ha', Hb';
    eexists; (split; [reflexivity|]); simpl;
    now apply static_cast_narrow.
Qed.

Lemma native_cmp_same_type (t : IntType) (op : CmpOp) (a b : Z) :
  in_range t a -> in_range t b -> native_cmp op t a t b = Z_cmp op a b.
Proof.
  intros Ha Hb. unfold native_cmp. rewrite common_type_same.
  rewrite !static_cast_id by now apply in_range_promote.
  now destruct op.
Qed.

(** ** Validators *)

Lemma NullStrongIntValidator_returns (h : HookCall) :
  hook_returns NullStrongIntValidator h = true.
Proof. now destruct h. Qed.

(** ** Construction, hooks and the binary operators *)

Section OperatorFacts.

Context {TagType : Tag} {NativeType : IntType} {ValidatorType : Validator}.

Local Abbreviation SI := (StrongInt TagType NativeType ValidatorType).
Local Abbreviation St := (State TagType NativeType ValidatorType).

Lemma log_log (s : St) (c1 c2 : list HookCall) :
  log (log s c1) c2 = log s (c1 ++ c2).
Proof. unfold log. simpl. now rewrite <- app_assoc. Qed.

Lemma call_hook_run (h : HookCall) (s : St) :
  call_hook h s =
  (if hook_returns ValidatorType h then Returned tt else Aborted, log s [h]).
Proof. unfold call_hook, log. now destruct (hook_returns ValidatorType h). Qed.

Lemma StrongInt_init_run (n : Num) (s : St) :
  StrongInt_init n s =
  (if hook_returns ValidatorType (ValidateInit (num_value n))
   then Returned (mkStrongInt (static_cast NativeType (num_value n)))
   else Aborted,
   log s [ValidateInit (num_value n)]).
Proof.
  unfold StrongInt_init, bind. rewrite call_hook_run.
  now destruct (hook_returns ValidatorType _).
Qed.

Lemma value_inj (x y : SI) : value x = value y -> x = y.
Proof. destruct x, y. simpl. now intros ->. Qed.

(** C6: a default-constructed StrongInt holds zero, the zero of its native
    type, and the init hook is called on that zero before any object
    exists: when the hook does not return, no object is produced.  The
    validator that is fatal on a non-positive argument rejects the default
    value. *)
Theorem default_constructor_is_validated_zero (s : St) :
  StrongInt_default s =
    (if hook_returns ValidatorType (ValidateInit 0)
     then Returned (mkStrongInt 0) else Aborted,
     log s [ValidateInit 0]) /\
  static_cast NativeType 0 = 0 /\
  (forall s' : State TagType NativeType (InitValidator true),
     StrongInt_default s' = (Aborted, log s' [ValidateInit 0])) /\
  (forall s' : State TagType NativeType NullStrongIntValidator,
     StrongInt_default s' = (Returned (mkStrongInt 0), log s' [ValidateInit 0])).
Proof.
  split; [|split; [|split]].
  - unfold StrongInt_default, bind. rewrite call_hook_run.
    now destruct (hook_returns ValidatorType _).
  - apply static_cast_zero.
  - intros s'. reflexivity.
  - intros s'. reflexivity.
Qed.

Lemma strong_vs_strong_run (op : BinOp) (validator : Z -> Z -> HookCall)
    (x y : SI) (s : St) :
  In op [OpAdd; OpSub; OpBitAnd; OpBitOr; OpBitXor] ->
  in_range NativeType (value x) -> in_range NativeType (value y) ->
  let r := static_cast NativeType (Z_binop op (value x) (value y)) in
  STRONG_INT_VS_STRONG_INT_BINARY_OP op validator x y s =
  if hook_returns ValidatorType (validator (value x) (value y))
  then (if hook_returns ValidatorType (ValidateInit r)
        then Returned (mkStrongInt r) else Aborted,
        log s [validator (value x) (value y); ValidateInit r])
  else (Aborted, log s [validator (value x) (value y)]).
Proof.
  intros Hop Hx Hy r.
  destruct (native_same_type _ op _ _ Hop Hx Hy) as (t & z & Hz & Hr).
  unfold STRONG_INT_VS_STRONG_INT_BINARY_OP, bind.
  rewrite call_hook_run, Hz.
  destruct (hook_returns ValidatorType (validator _ _)); [|reflexivity].
  rewrite StrongInt_init_run, log_log. simpl.
  rewrite static_cast_idem, Hr. reflexivity.
Qed.

Lemma strong_vs_strong_resolves (op : BinOp) (x y : SI) :
  In op [OpAdd; OpSub; OpBitAnd; OpBitOr; OpBitXor] ->
  binary_expr op (Strong x) (Strong y) =
  Some (STRONG_INT_VS_STRONG_INT_BINARY_OP op (binary_hook op) x y).
Proof.
  simpl. intros [<-|[<-|[<-|[<-|[<-|[]]]]]]; reflexivity.
Qed.

(** The body of the (StrongInt, numeric) template, step by step. *)
Lemma strong_vs_numeric_run (op : BinOp) (x : SI) (n : Num) (s : St) :
  let h := numeric_hook op (value x) n in
  STRONG_INT_VS_NUMERIC_BINARY_OP op (numeric_hook op) x n s =
  if hook_returns ValidatorType h then
    match native_binop op NativeType (value x) (num_type n) (num_value n) with
    | Some (_, z) =>
        (if hook_returns ValidatorType (ValidateInit (static_cast NativeType z))
         then Returned (mkStrongInt (static_cast NativeType z)) else Aborted,
         log s [h; ValidateInit (static_cast NativeType z)])
    | None => (Undefined, log s [h])
    end
  else (Aborted, log s [h]).
Proof.
  intros h. unfold STRONG_INT_VS_NUMERIC_BINARY_OP, bind.
  rewrite call_hook_run. fold h.
  destruct (hook_returns ValidatorType h); [|reflexivity].
  destruct (native_binop op NativeType (value x) (num_type n) (num_value n))
    as [[t z]|]; [|reflexivity].
  rewrite StrongInt_init_run, log_log. simpl.
  now rewrite static_cast_idem.
Qed.

(** The (numeric, StrongInt) template does what the (StrongInt, numeric)
    one does with the operands exchanged. *)
Lemma numeric_vs_strong_run (op : BinOp) (validator : Z -> Num -> HookCall)
    (n : Num) (x : SI) :
  NUMERIC_VS_STRONG_INT_BINARY_OP op validator n x =
  STRONG_INT_VS_NUMERIC_BINARY_OP op validator x n.
Proof. reflexivity. Qed.

Lemma strong_vs_numeric_resolves (op : BinOp) (x : SI) (n : Num) :
  In op [OpMul; OpDiv; OpMod; OpShl; OpShr] ->
  binary_expr op (Strong x) (Numeric n) =
  Some (STRONG_INT_VS_NUMERIC_BINARY_OP op (numeric_hook op) x n).
Proof.
  simpl. intros [<-|[<-|[<-|[<-|[<-|[]]]]]]; reflexivity.
Qed.

Lemma numeric_vs_strong_resolves (op : BinOp) (n : Num) (x : SI) :
  binary_expr op (Numeric n) (Strong x) =
  if decide (op = OpMul)
  then Some (NUMERIC_VS_STRONG_INT_BINARY_OP OpMul (numeric_hook OpMul) n x)
  else None.
Proof. destruct op; reflexivity. Qed.

(** C1: for each of [* / % << >>] the expression [x op n] with a numeric
    [n] selects an operator of the header.  It calls the operator's hook on
    (x.value(), n); when the hook returns it builds a StrongInt of the
    type of [x] from the built-in [x.value() op n] converted to the native
    type, through the validated constructor.  For [*] the expression
    [n * x] selects an operator too, with the same outcome; for the other
    four the commuted expression selects none. *)
Theorem strong_vs_numeric_operators (op : BinOp) (x : SI) (n : Num) (s : St) :
  In op [OpMul; OpDiv; OpMod; OpShl; OpShr] ->
  let h := numeric_hook op (value x) n in
  let outcome :=
    if hook_returns ValidatorType h then
      match native_binop op NativeType (value x) (num_type n) (num_value n) with
      | Some (_, z) =>
          (if hook_returns ValidatorType (ValidateInit (static_cast NativeType z))
           then Returned (mkStrongInt (static_cast NativeType z)) else Aborted,
           log s [h; ValidateInit (static_cast NativeType z)])
      | None => (Undefined, log s [h])
      end
    else (Aborted, log s [h]) in
  (exists m : M TagType NativeType ValidatorType SI,
     binary_expr op (Strong x) (Numeric n) = Some m /\ m s = outcome) /\
  (op = OpMul ->
   exists m' : M TagType NativeType ValidatorType SI,
     binary_expr op (Numeric n) (Strong x) = Some m' /\ m' s = outcome) /\
  (op <> OpMul -> binary_expr op (Numeric n) (Strong x) = None).
Proof.
  intros Hop h outcome. split; [|split].
  - eexists. split; [now apply strong_vs_numeric_resolves|].
    apply strong_vs_numeric_run.
  - intros ->. eexists. split; [reflexivity|].
    rewrite numeric_vs_strong_run. apply strong_vs_numeric_run.
  - intros Hne. rewrite numeric_vs_strong_resolves.
    now rewrite decide_False.
Qed.

(** C9, as the header has it: for [% << >>] the operator takes the
    StrongInt on the left and the numeric operand on the right, and
    [x op n] calls the hook on (x.value(), n) and builds its result from
    the built-in [x.value() op n]; [n % x], [n << x] and [n >> x] select
    no operator.  Only [*] has the (numeric, StrongInt) form, and [n * x]
    builds its result from [x.value() * n]. *)
Theorem numeric_operand_goes_right (op : BinOp) (x : SI) (n : Num) (s : St) :
  In op [OpMod; OpShl; OpShr] ->
  let outcome (op' : BinOp) :=
    let h := numeric_hook op' (value x) n in
    if hook_returns ValidatorType h then
      match native_binop op' NativeType (value x) (num_type n) (num_value n)
      with
      | Some (_, z) =>
          (if hook_returns ValidatorType (ValidateInit (static_cast NativeType z))
           then Returned (mkStrongInt (static_cast NativeType z)) else Aborted,
           log s [h; ValidateInit (static_cast NativeType z)])
      | None => (Undefined, log s [h])
      end
    else (Aborted, log s [h]) in
  binary_expr op (Numeric n) (Strong x) = None /\
  (exists m : M TagType NativeType ValidatorType SI,
     binary_expr op (Strong x) (Numeric n) = Some m /\ m s = outcome op) /\
  (exists m' : M TagType NativeType ValidatorType SI,
     binary_expr OpMul (Numeric n) (Strong x) = Some m' /\
     m' s = outcome OpMul).
Proof.
  intros Hop outcome. split; [|split].
  - rewrite numeric_vs_strong_resolves.
    simpl in Hop. destruct Hop as [<-|[<-|[<-|[]]]]; reflexivity.
  - eexists. split.
    + apply strong_vs_numeric_resolves. simpl in *. tauto.
    + apply strong_vs_numeric_run.
  - eexists. split; [reflexivity|].
    rewrite numeric_vs_strong_run. apply strong_vs_numeric_run.
Qed.

(** C5: each of the six comparisons returns the built-in comparison of
    the two values, which for values of the native type is the comparison
    of the integers they denote, and leaves the state as it was: no hook
    is called and no object changes. *)
Theorem comparison_is_native_and_silent (op : CmpOp) (x y : SI) (s : St) :
  in_range NativeType (value x) -> in_range NativeType (value y) ->
  STRONG_INT_COMPARISON_OP op x y s =
    (Returned (native_cmp op NativeType (value x) NativeType (value y)), s) /\
  native_cmp op NativeType (value x) NativeType (value y) =
    Z_cmp op (value x) (value y).
Proof.
  intros Hx Hy. split; [reflexivity|].
  now apply native_cmp_same_type.
Qed.

End OperatorFacts.

(** ** The default validator *)

Section DefaultValidator.

Context {TagType : Tag} {NativeType : IntType}.

Local Abbreviation SI := (StrongInt TagType NativeType NullStrongIntValidator).
Local Abbreviation St := (State TagType NativeType NullStrongIntValidator).

(** C3: with the default validator, for native values [a] and [b] and
    each of [+ - & | ^], StrongInt(a) op StrongInt(b) is a new StrongInt
    whose value is [a op b] reduced modulo 2^w into the native type.  The
    operator's hook is called on (a, b) first; the result then goes
    through the validated constructor. *)
Theorem strong_vs_strong_wraparound (op : BinOp) (a b : Z) (s : St) :
  In op [OpAdd; OpSub; OpBitAnd; OpBitOr; OpBitXor] ->
  in_range NativeType a -> in_range NativeType b ->
  let x : SI := mkStrongInt a in
  let y : SI := mkStrongInt b in
  let r := static_cast NativeType (Z_binop op a b) in
  StrongInt_init (mkNum NativeType a) s = (Returned x, log s [ValidateInit a]) /\
  StrongInt_init (mkNum NativeType b) s = (Returned y, log s [ValidateInit b]) /\
  (exists m : M TagType NativeType NullStrongIntValidator SI,
     binary_expr op (Strong x) (Strong y) = Some m /\
     m s = (Returned (mkStrongInt r),
            log s [binary_hook op a b; ValidateInit r])) /\
  in_range NativeType r /\
  r mod 2 ^ bits NativeType = Z_binop op a b mod 2 ^ bits NativeType.
Proof.
  intros Hop Ha Hb x y r.
  split; [|split; [|split; [|split]]].
  - rewrite StrongInt_init_run. simpl. now rewrite static_cast_id.
  - rewrite StrongInt_init_run. simpl. now rewrite static_cast_id.
  - eexists. split; [now apply strong_vs_strong_resolves|].
    rewrite strong_vs_strong_run by assumption.
    now rewrite !NullStrongIntValidator_returns.
  - apply static_cast_in_range.
  - apply static_cast_mod.
Qed.

End DefaultValidator.

(** ** Increment, decrement and ranges *)

Section MutationFacts.

Context {TagType : Tag} {NativeType : IntType} {ValidatorType : Validator}.

Local Abbreviation SI := (StrongInt TagType NativeType ValidatorType).
Local Abbreviation St := (State TagType NativeType ValidatorType).

(** All four operators check, then read and write [*this]. *)
Ltac run_member Hx :=
  unfold operator_preinc, operator_postinc, operator_predec, operator_postdec,
         bind, load, value;
  rewrite Hx, call_hook_run, static_cast_one;
  match goal with
  | |- context [hook_returns ValidatorType ?h] =>
      destruct (hook_returns ValidatorType h); [|reflexivity]
  end;
  unfold store, load, log; simpl; rewrite ?Hx; simpl; now rewrite ?Hx.

Lemma operator_preinc_run (this : loc) (x : SI) (s : St) :
  heap s !! this = Some x ->
  operator_preinc this s =
  if hook_returns ValidatorType (ValidateAdd (value x) 1)
  then (Returned this,
        mkState (<[this := mkStrongInt (native_incr NativeType (value x))]>
                   (heap s))
                (hook_trace s ++ [ValidateAdd (value x) 1]))
  else (Aborted, log s [ValidateAdd (value x) 1]).
Proof. intros Hx. run_member Hx. Qed.

Lemma operator_postinc_run (this : loc) (x : SI) (s : St) :
  heap s !! this = Some x ->
  operator_postinc this s =
  if hook_returns ValidatorType (ValidateAdd (value x) 1)
  then (Returned x,
        mkState (<[this := mkStrongInt (native_incr NativeType (value x))]>
                   (heap s))
                (hook_trace s ++ [ValidateAdd (value x) 1]))
  else (Aborted, log s [ValidateAdd (value x) 1]).
Proof. intros Hx. run_member Hx. Qed.

Lemma operator_predec_run (this : loc) (x : SI) (s : St) :
  heap s !! this = Some x ->
  operator_predec this s =
  if hook_returns ValidatorType (ValidateSubtract (value x) 1)
  then (Returned this,
        mkState (<[this := mkStrongInt (native_decr NativeType (value x))]>
                   (heap s))
                (hook_trace s ++ [ValidateSubtract (value x) 1]))
  else (Aborted, log s [ValidateSubtract (value x) 1]).
Proof. intros Hx. run_member Hx. Qed.

Lemma operator_postdec_run (this : loc) (x : SI) (s : St) :
  heap s !! this = Some x ->
  operator_postdec this s =
  if hook_returns ValidatorType (ValidateSubtract (value x) 1)
  then (Returned x,
        mkState (<[this := mkStrongInt (native_decr NativeType (value x))]>
                   (heap s))
                (hook_trace s ++ [ValidateSubtract (value x) 1]))
  else (Aborted, log s [ValidateSubtract (value x) 1]).
Proof. intros Hx. run_member Hx. Qed.

(** C4: for an object [x] at [this] holding [v], with hooks that return:
    [++x] calls the add hook on (v, 1), leaves v+1 in [x] and returns
    [this] itself, through which v+1 is read; [x++] reaches the same state
    and returns the object as it was, holding [v]; [--x] and [x--] do the
    same with the subtract hook and v-1.  The sum is the native one: it is
    v+1 below Max() and v-1 above Min(). *)
Theorem increment_and_decrement (this : loc) (x : SI) (s : St) :
  heap s !! this = Some x ->
  let v := value x in
  hook_returns ValidatorType (ValidateAdd v 1) = true ->
  hook_returns ValidatorType (ValidateSubtract v 1) = true ->
  let incremented : St :=
    mkState (<[this := mkStrongInt (static_cast NativeType (v + 1))]> (heap s))
            (hook_trace s ++ [ValidateAdd v 1]) in
  let decremented : St :=
    mkState (<[this := mkStrongInt (static_cast NativeType (v - 1))]> (heap s))
            (hook_trace s ++ [ValidateSubtract v 1]) in
  (operator_preinc this s = (Returned this, incremented) /\
   load this incremented =
     (Returned (mkStrongInt (static_cast NativeType (v + 1))), incremented)) /\
  (operator_postinc this s = (Returned x, incremented) /\ value x = v) /\
  (operator_predec this s = (Returned this, decremented) /\
   load this decremented =
     (Returned (mkStrongInt (static_cast NativeType (v - 1))), decremented)) /\
  (operator_postdec this s = (Returned x, decremented) /\ value x = v) /\
  (in_range NativeType v -> v < Max (NativeType := NativeType) ->
   static_cast NativeType (v + 1) = v + 1) /\
  (in_range NativeType v -> Min (NativeType := NativeType) < v ->
   static_cast NativeType (v - 1) = v - 1).
Proof.
  intros Hx v Hadd Hsub incremented decremented.
  split; [|split; [|split; [|split; [|split]]]].
  - split.
    + rewrite (operator_preinc_run this x s Hx). fold v. now rewrite Hadd.
    + unfold load, incremented. simpl. now rewrite lookup_insert_eq.
  - split; [|reflexivity].
    rewrite (operator_postinc_run this x s Hx). fold v. now rewrite Hadd.
  - split.
    + rewrite (operator_predec_run this x s Hx). fold v. now rewrite Hsub.
    + unfold load, decremented. simpl. now rewrite lookup_insert_eq.
  - split; [|reflexivity].
    rewrite (operator_postdec_run this x s Hx). fold v. now rewrite Hsub.
  - intros Hv Hmax. apply static_cast_id. unfold Max, in_range in *. lia.
  - intros Hv Hmin. apply static_cast_id. unfold Min, in_range in *. lia.
Qed.

Lemma distance_zero (t : IntType) (b e : Z) :
  in_range t b -> in_range t e -> distance t b e = O -> b = e.
Proof.
  intros Hb He Hd. unfold distance in Hd.
  pose proof (in_range_width t b e Hb He) as Hw.
  pose proof (modulus_pos t) as Hm.
  pose proof (Z.mod_pos_bound (e - b) (2 ^ bits t) Hm) as Hbound.
  assert (Hz : (e - b) mod 2 ^ bits t = 0) by lia.
  apply Z.mod_divide in Hz; [|lia].
  destruct Hz as [k Hk].
  clear Hbound Hd. generalize dependent (2 ^ bits t). intros W Hw Hm Hk.
  assert (k = 0)
    by (destruct (Z.lt_trichotomy k 0) as [?|[?|?]]; [nia|assumption|nia]).
  subst k. lia.
Qed.

Lemma distance_same (t : IntType) (b : Z) : distance t b b = O.
Proof.
  unfold distance. pose proof (modulus_pos t).
  now rewrite Z.sub_diag, Z.mod_0_l by lia.
Qed.

Lemma distance_succ (t : IntType) (b e : Z) (n : nat) :
  distance t b e = S n -> distance t (native_incr t b) e = n.
Proof.
  unfold distance, native_incr. intros Hd.
  pose proof (modulus_pos t) as Hm.
  pose proof (Z.mod_pos_bound (e - b) (2 ^ bits t) Hm) as Hbound.
  assert (He : (e - b) mod 2 ^ bits t = Z.of_nat (S n)) by lia.
  assert (H1 : 1 < 2 ^ bits t).
  { pose proof (bits_bounds t).
    assert (2 ^ 1 < 2 ^ bits t) by (apply Z.pow_lt_mono_r; lia). lia. }
  rewrite Zminus_mod, static_cast_mod, <- Zminus_mod.
  replace (e - (b + 1)) with ((e - b) - 1) by lia.
  rewrite Zminus_mod, He, Z.mod_1_l by lia.
  rewrite Z.mod_small by lia. lia.
Qed.

Lemma distance_ordered (t : IntType) (b e : Z) :
  in_range t b -> in_range t e -> b <= e ->
  Z.of_nat (distance t b e) = e - b.
Proof.
  intros Hb He Hle. unfold distance.
  pose proof (in_range_width t b e Hb He).
  rewrite Z.mod_small by lia. lia.
Qed.

Lemma successors_wrap (t : IntType) (n : nat) : forall cur : Z,
  in_range t cur ->
  successors t cur n =
  (fun i => static_cast t (cur + i)) <$> seqZ 0 (Z.of_nat n).
Proof.
  induction n as [|n IH]; intros cur Hcur; [reflexivity|].
  rewrite seqZ_cons by lia. simpl successors.
  rewrite fmap_cons, Z.add_0_r, static_cast_id by assumption. f_equal.
  rewrite IH by apply static_cast_in_range.
  replace (Z.pred (Z.of_nat (S n))) with (Z.of_nat n) by lia.
  change (Z.succ 0) with (1 + 0). rewrite <- fmap_add_seqZ, <- list_fmap_compose.
  apply list_fmap_ext. intros _ i _. simpl.
  unfold native_incr. apply static_cast_congr.
  rewrite Zplus_mod, static_cast_mod, <- Zplus_mod. f_equal. lia.
Qed.

Lemma successors_no_wrap (t : IntType) (n : nat) : forall cur : Z,
  in_range t cur ->
  cur + Z.of_nat n <= max_value t + 1 ->
  successors t cur n = seqZ cur (Z.of_nat n).
Proof.
  induction n as [|n IH]; intros cur Hcur Hmax; [reflexivity|].
  rewrite seqZ_cons by lia. simpl successors. f_equal.
  replace (Z.pred (Z.of_nat (S n))) with (Z.of_nat n) by lia.
  destruct n as [|n]; [reflexivity|].
  assert (Hnext : native_incr t cur = Z.succ cur).
  { unfold native_incr. rewrite static_cast_id; [lia|].
    unfold in_range in *. lia. }
  rewrite Hnext. apply IH; [|lia].
  unfold in_range in *. lia.
Qed.

Lemma iterator_ne_run (a b : SI) (s : St) :
  in_range NativeType (value a) -> in_range NativeType (value b) ->
  iterator_ne (mkIterator a) (mkIterator b) s =
  (Returned (negb (value a =? value b)), s).
Proof.
  intros Ha Hb. unfold iterator_ne, STRONG_INT_COMPARISON_OP, ret.
  cbn [current_].
  now rewrite (native_cmp_same_type NativeType CmpNe _ _ Ha Hb).
Qed.

(** One turn of the loop whose test succeeds: the current value is bound,
    the iterator is advanced, and the loop goes on from the next value. *)
Lemma range_for_loop_step (fuel : nat) (it : loc) (cur e : SI) (s : St) :
  heap s !! it = Some cur ->
  in_range NativeType (value cur) -> in_range NativeType (value e) ->
  value cur <> value e ->
  hook_returns ValidatorType (ValidateAdd (value cur) 1) = true ->
  range_for_loop (S fuel) it (mkIterator e) s =
  (rest <- range_for_loop fuel it (mkIterator e) ;;
   ret (option_map (cons cur) rest))
    (mkState (<[it := mkStrongInt (native_incr NativeType (value cur))]>
                (heap s))
             (hook_trace s ++ [ValidateAdd (value cur) 1])).
Proof.
  intros Hit Hcur He Hne Hhook.
  cbn [range_for_loop]. unfold bind at 1. unfold load. rewrite Hit.
  unfold bind at 1. rewrite iterator_ne_run by assumption.
  apply Z.eqb_neq in Hne. rewrite Hne. cbn [negb].
  unfold bind at 1. unfold iterator_preinc. unfold bind at 1.
  rewrite (operator_preinc_run it cur s Hit), Hhook.
  reflexivity.
Qed.

Lemma range_for_loop_run (n : nat) :
  forall (fuel : nat) (it : loc) (cur e : SI) (s : St),
  heap s !! it = Some cur ->
  in_range NativeType (value cur) -> in_range NativeType (value e) ->
  distance NativeType (value cur) (value e) = n ->
  Forall (fun v => hook_returns ValidatorType (ValidateAdd v 1) = true)
         (successors NativeType (value cur) n) ->
  (n < fuel)%nat ->
  range_for_loop fuel it (mkIterator e) s =
  (Returned (Some (mkStrongInt <$> successors NativeType (value cur) n)),
   mkState (<[it := e]> (heap s))
           (hook_trace s ++
              ((fun v => ValidateAdd v 1)
                 <$> successors NativeType (value cur) n))).
Proof.
  induction n as [|n IH]; intros fuel it cur e s Hit Hcur He Hd Hhooks Hfuel;
    (destruct fuel as [|fuel]; [lia|]).
  - pose proof (distance_zero _ _ _ Hcur He Hd) as Heq.
    apply value_inj in Heq. subst e.
    cbn [range_for_loop]. unfold bind, load. rewrite Hit.
    rewrite iterator_ne_run by assumption.
    rewrite Z.eqb_refl. simpl. unfold ret.
    rewrite insert_id by assumption. rewrite app_nil_r. now destruct s.
  - assert (Hne : value cur <> value e).
    { intros Heq. rewrite Heq, distance_same in Hd. discriminate. }
    inversion Hhooks as [|v vs Hv Hrest]; subst.
    rewrite (range_for_loop_step fuel it cur e s) by assumption.
    unfold bind.
    rewrite (IH fuel it (mkStrongInt (native_incr NativeType (value cur))) e).
    + simpl. rewrite insert_insert_eq, <- app_assoc. simpl.
      unfold ret. now destruct cur.
    + simpl. apply lookup_insert_eq.
    + apply static_cast_in_range.
    + assumption.
    + now apply distance_succ.
    + exact Hrest.
    + lia.
Qed.

(** With no more fuel than the distance, the loop is still running. *)
Lemma range_for_loop_short (fuel : nat) :
  forall (n : nat) (it : loc) (cur e : SI) (s : St),
  heap s !! it = Some cur ->
  in_range NativeType (value cur) -> in_range NativeType (value e) ->
  distance NativeType (value cur) (value e) = n ->
  Forall (fun v => hook_returns ValidatorType (ValidateAdd v 1) = true)
         (successors NativeType (value cur) n) ->
  (fuel <= n)%nat ->
  exists s', range_for_loop fuel it (mkIterator e) s = (Returned None, s').
Proof.
  induction fuel as [|fuel IH]; intros n it cur e s Hit Hcur He Hd Hhooks Hfuel.
  - eexists. reflexivity.
  - destruct n as [|n]; [lia|].
    assert (Hne : value cur <> value e).
    { intros Heq. rewrite Heq, distance_same in Hd. discriminate. }
    inversion Hhooks as [|v vs Hv Hrest]; subst.
    rewrite (range_for_loop_step fuel it cur e s) by assumption.
    unfold bind.
    edestruct (IH n it (mkStrongInt (native_incr NativeType (value cur))) e)
      as [s'' Hs'']; cycle 6.
    + rewrite Hs''. eexists. reflexivity.
    + simpl. apply lookup_insert_eq.
    + apply static_cast_in_range.
    + assumption.
    + now apply distance_succ.
    + exact Hrest.
    + lia.
Qed.

Lemma range_for_run (fuel : nat) (b e : SI) (s : St) :
  in_range NativeType (value b) -> in_range NativeType (value e) ->
  let n := distance NativeType (value b) (value e) in
  Forall (fun v => hook_returns ValidatorType (ValidateAdd v 1) = true)
         (successors NativeType (value b) n) ->
  (n < fuel)%nat ->
  range_for fuel (mkRange (mkIterator b) (mkIterator e)) s =
  (Returned (Some (mkStrongInt <$> successors NativeType (value b) n)),
   mkState (<[fresh (dom (heap s)) := e]> (heap s))
           (hook_trace s ++
              ((fun v => ValidateAdd v 1)
                 <$> successors NativeType (value b) n))).
Proof.
  intros Hb He n Hhooks Hfuel.
  unfold range_for, bind, alloc, range_begin, range_end. simpl.
  rewrite (range_for_loop_run n fuel _ b e); try assumption; try reflexivity.
  - simpl. now rewrite insert_insert_eq.
  - simpl. apply lookup_insert_eq.
Qed.

(** C2: for [b <= e], with add hooks that return on the values passed,
    the loop over StrongIntRange(b, e) binds b, b+1, ..., e-1 in this
    order, one add hook call per value, and nothing when [b = e].
    StrongIntRange(e) builds the range StrongIntRange(StrongInt(0), e)
    builds, after the validated construction of that zero.  The loop test
    is the inequality of the two current values. *)
Theorem range_yields_begin_to_end (fuel : nat) (b e : SI) (s : St) :
  in_range NativeType (value b) -> in_range NativeType (value e) ->
  value b <= value e ->
  (forall v, value b <= v < value e ->
             hook_returns ValidatorType (ValidateAdd v 1) = true) ->
  (Z.to_nat (value e - value b) < fuel)%nat ->
  let visited := seqZ (value b) (value e - value b) in
  (exists s',
     (r <- StrongIntRange_begin_end b e ;; range_for fuel r) s =
       (Returned (Some (mkStrongInt <$> visited)), s') /\
     hook_trace s' = hook_trace s ++ ((fun v => ValidateAdd v 1) <$> visited)) /\
  (value b = value e -> visited = []) /\
  StrongIntRange_end e s =
    (if hook_returns ValidatorType (ValidateInit 0)
     then Returned (mkRange (mkIterator (mkStrongInt 0)) (mkIterator e))
     else Aborted,
     log s [ValidateInit 0]) /\
  StrongIntRange_begin_end (mkStrongInt 0) e s =
    (Returned (mkRange (mkIterator (mkStrongInt 0)) (mkIterator e)), s) /\
  iterator_ne (mkIterator b) (mkIterator e) s =
    (Returned (negb (value b =? value e)), s).
Proof.
  intros Hb He Hle Hhooks Hfuel visited.
  pose proof (distance_ordered _ _ _ Hb He Hle) as Hd.
  assert (Hsucc : successors NativeType (value b)
                    (distance NativeType (value b) (value e)) = visited).
  { rewrite successors_no_wrap; [now rewrite Hd|assumption|].
    rewrite Hd. unfold in_range in He. lia. }
  split; [|split; [|split; [|split]]].
  - eexists. split.
    + unfold bind, StrongIntRange_begin_end, ret, StrongIntRangeIterator_init.
      rewrite range_for_run; try assumption.
      * rewrite Hsucc. reflexivity.
      * rewrite Hsucc. apply Forall_seqZ. intros v Hv. apply Hhooks. lia.
      * lia.
    + reflexivity.
  - intros Heq. unfold visited. rewrite Heq, Z.sub_diag. reflexivity.
  - unfold StrongIntRange_end, bind. rewrite StrongInt_init_run. simpl.
    rewrite static_cast_zero.
    now destruct (hook_returns ValidatorType (ValidateInit 0)).
  - reflexivity.
  - now apply iterator_ne_run.
Qed.

(** C10: with increments that wrap around and add hooks that return, the
    loop over StrongIntRange(b, e) ends for every [b] and [e] of the
    native type, whatever their order.  With n = (e - b) mod 2^w, every
    run of more than [n] turns binds exactly the [n] values b, b+1, ...
    taken modulo 2^w, makes exactly [n] increments and leaves the
    iterator on [e]; no run of [n] turns or fewer has ended. *)
Theorem range_terminates_by_wraparound (b e : SI) (s : St) :
  in_range NativeType (value b) -> in_range NativeType (value e) ->
  (forall v, hook_returns ValidatorType (ValidateAdd v 1) = true) ->
  let n := Z.to_nat ((value e - value b) mod 2 ^ bits NativeType) in
  let visited :=
    (fun i => static_cast NativeType (value b + i)) <$> seqZ 0 (Z.of_nat n) in
  (forall fuel, (n < fuel)%nat ->
     exists s',
       range_for fuel (mkRange (mkIterator b) (mkIterator e)) s =
         (Returned (Some (mkStrongInt <$> visited)), s') /\
       hook_trace s' = hook_trace s ++ ((fun v => ValidateAdd v 1) <$> visited) /\
       heap s' !! fresh (dom (heap s)) = Some e) /\
  (forall fuel, (fuel <= n)%nat ->
     exists s',
       range_for fuel (mkRange (mkIterator b) (mkIterator e)) s =
         (Returned None, s')) /\
  List.length visited = n.
Proof.
  intros Hb He Hhooks n visited.
  assert (Hsucc : successors NativeType (value b) n = visited)
    by now apply successors_wrap.
  assert (Hall : Forall (fun v => hook_returns ValidatorType (ValidateAdd v 1)
                                  = true)
                        (successors NativeType (value b) n))
    by (apply Forall_forall; intros v _; apply Hhooks).
  assert (Hn : distance NativeType (value b) (value e) = n) by reflexivity.
  split; [|split].
  - intros fuel Hfuel. eexists. split; [|split].
    + rewrite range_for_run; rewrite ?Hn; try assumption.
      rewrite Hsucc. reflexivity.
    + reflexivity.
    + simpl. apply lookup_insert_eq.
  - intros fuel Hfuel.
    unfold range_for, bind, alloc, range_begin, range_end. simpl.
    apply (range_for_loop_short fuel n _ b e); try assumption; try reflexivity.
    simpl. apply lookup_insert_eq.
  - unfold visited. rewrite length_fmap, length_seqZ. lia.
Qed.

End MutationFacts.

(** ** Hashing *)

Section HashFacts.

Context {TagType : Tag} {NativeType : IntType} {ValidatorType : Validator}.
Context {V : Type}.

Local Abbreviation SI := (StrongInt TagType NativeType ValidatorType).
Local Abbreviation St := (State TagType NativeType ValidatorType).
Local Abbreviation Map := (unordered_map TagType NativeType ValidatorType V).

Lemma operator_eq_same_value (x y : SI) (s : St) :
  value x = value y ->
  STRONG_INT_COMPARISON_OP CmpEq x y s = (Returned true, s).
Proof.
  intros Hxy.
  unfold STRONG_INT_COMPARISON_OP, ret, native_cmp.
  now rewrite Hxy, Z.eqb_refl.
Qed.

(** Looking a key up calls no hook and changes no object. *)
Lemma bucket_find_pure (b : list (SI * V)) (k : SI) (s : St) :
  exists r, bucket_find b k s = (Returned r, s).
Proof.
  induction b as [|[k' v] b IH]; simpl.
  - eexists. reflexivity.
  - unfold bind, STRONG_INT_COMPARISON_OP, ret.
    destruct (native_cmp CmpEq NativeType (value k') NativeType (value k)).
    + eexists. reflexivity.
    + exact IH.
Qed.

Lemma map_find_pure (m : Map) (k : SI) (s : St) :
  exists r, map_find m k s = (Returned r, s).
Proof.
  unfold map_find. destruct (buckets m !! bucket_index m k).
  - apply bucket_find_pure.
  - eexists. reflexivity.
Qed.

Lemma bucket_index_bound (m : Map) (k : SI) :
  buckets m <> [] -> (bucket_index m k < List.length (buckets m))%nat.
Proof.
  intros Hne. unfold bucket_index.
  assert (0 < Z.of_nat (List.length (buckets m))).
  { destruct (buckets m); [contradiction|simpl; lia]. }
  pose proof (Z.mod_pos_bound (std_hash k) (Z.of_nat (List.length (buckets m)))).
  lia.
Qed.

(** After insert({k, v}) the key [k] is found; it maps to [v] unless an
    equal key was there before. *)
Lemma map_find_insert (m : Map) (k : SI) (v : V) (s : St) :
  buckets m <> [] ->
  exists m',
    map_insert m k v s = (Returned m', s) /\
    map_find m' k s =
      (Returned (Some (match fst (map_find m k s) with
                       | Returned (Some v0) => v0
                       | _ => v
                       end)), s).
Proof.
  intros Hne. unfold map_insert, bind.
  destruct (map_find_pure m k s) as [[v0|] Hr]; rewrite Hr; simpl.
  - exists m. split; [reflexivity|exact Hr].
  - eexists. split; [reflexivity|].
    unfold map_find, bucket_index. simpl.
    rewrite length_alter. fold (bucket_index m k).
    pose proof (bucket_index_bound m k Hne) as Hlt.
    destruct (lookup_lt_is_Some_2 _ _ Hlt) as [b Hb].
    rewrite list_lookup_alter, Hb. simpl.
    rewrite decide_True by reflexivity. simpl.
    unfold bind. now rewrite operator_eq_same_value.
Qed.

(** C7: two StrongInt with equal values have the same hash, through
    Hasher and through std::hash, and compare equal; so in a hash table
    with at least one bucket a key inserted as [x] is found as [y], with
    the value [x] maps to, which is the inserted one when no equal key
    was present. *)
Theorem equal_values_hash_equally (x y : SI) (m : Map) (v : V) (s : St) :
  value x = value y ->
  buckets m <> [] ->
  Hasher x = Hasher y /\
  std_hash x = std_hash y /\
  STRONG_INT_COMPARISON_OP CmpEq x y s = (Returned true, s) /\
  exists (m' : Map) (v' : V),
    map_insert m x v s = (Returned m', s) /\
    map_find m' y s = (Returned (Some v'), s) /\
    map_find m' x s = (Returned (Some v'), s) /\
    (map_find m y s = (Returned None, s) -> v' = v).
Proof.
  intros Hxy Hne.
  split; [|split; [|split]].
  - unfold Hasher. now rewrite Hxy.
  - unfold std_hash, Hasher. now rewrite Hxy.
  - now apply operator_eq_same_value.
  - apply value_inj in Hxy. subst y.
    destruct (map_find_insert m x v s Hne) as (m' & Hins & Hfind).
    exists m'. eexists. split; [exact Hins|].
    split; [exact Hfind|]. split; [exact Hfind|].
    intros Hnone. now rewrite Hnone.
Qed.

End HashFacts.

(** ** Rendering *)

Lemma eight_bit_values_render :
  forallb renders_as_number eight_bit_values = true.
Proof. vm_compute. reflexivity. Qed.

Lemma eight_bit_in_range (t : IntType) (v : Z) :
  width t = W8 -> in_range t v -> -128 <= v < 256.
Proof.
  destruct t as [w sg]. simpl. intros ->.
  unfold in_range, min_value, max_value, bits. simpl. destruct sg; simpl; lia.
Qed.

Lemma renders_as_number_spec (v : Z) :
  -128 <= v < 256 ->
  read_decimal (decimal v) = Some v /\ decimal v <> glyph v.
Proof.
  intros Hv.
  pose proof eight_bit_values_render as Hall.
  rewrite forallb_forall in Hall.
  assert (Hin : In v eight_bit_values).
  { apply list_elem_of_In, elem_of_seqZ. lia. }
  specialize (Hall v Hin). unfold renders_as_number in Hall.
  destruct (read_decimal (decimal v)) as [v'|]; [|discriminate].
  apply andb_true_iff in Hall as [Heq Hne].
  apply Z.eqb_eq in Heq. subst v'. split; [reflexivity|].
  intros Hg. rewrite Hg, String.eqb_refl in Hne. discriminate.
Qed.

Section RenderingFacts.

Context {TagType : Tag} {NativeType : IntType} {ValidatorType : Validator}.

Local Abbreviation SI := (StrongInt TagType NativeType ValidatorType).

(** C8: for an 8-bit native type, signed or unsigned, [os << x] appends
    the decimal numeral of the value, a numeral that reads back as the
    value and is never the character of that code, which is what the
    unspecialised template would append.  A value of 65 is written "65". *)
Theorem eight_bit_renders_as_number (os : ostream) (x : SI) :
  width NativeType = W8 -> in_range NativeType (value x) ->
  operator_shl_ostream os x = String.append os (decimal (value x)) /\
  read_decimal (decimal (value x)) = Some (value x) /\
  decimal (value x) <> glyph (value x) /\
  ostream_insert_generic os x = String.append os (glyph (value x)) /\
  (value x = 65 -> operator_shl_ostream EmptyString x = "65"%string).
Proof.
  intros Hw Hx.
  pose proof (eight_bit_in_range _ _ Hw Hx) as Hv.
  assert (Hint : static_cast int (value x) = value x)
    by (apply static_cast_id; unfold in_range;
        change (min_value int) with (-2147483648);
        change (max_value int) with 2147483647; lia).
  assert (Huint : is_signed NativeType = false ->
                  static_cast unsigned_int (value x) = value x).
  { intros Hs. apply static_cast_id.
    assert (0 <= value x)
      by (revert Hx; unfold in_range, min_value; rewrite Hs; lia).
    unfold in_range.
    change (min_value unsigned_int) with 0.
    change (max_value unsigned_int) with 4294967295. lia. }
  assert (Hshow : forall os',
            operator_shl_ostream os' x = String.append os' (decimal (value x))).
  { intros os'. unfold operator_shl_ostream. rewrite Hw.
    destruct (is_signed NativeType) eqn:Hs.
    - unfold ostream_insert_int8, std_ostream_insert. now rewrite Hint.
    - unfold ostream_insert_uint8, std_ostream_insert. now rewrite Huint. }
  destruct (renders_as_number_spec _ Hv) as [Hread Hglyph].
  split; [apply Hshow|]. split; [exact Hread|]. split; [exact Hglyph|].
  split.
  - unfold ostream_insert_generic, std_ostream_insert. now rewrite Hw.
  - intros H65. rewrite Hshow, H65. reflexivity.
Qed.

End RenderingFacts.

(** ** Worked examples *)

(** The type of the numeric operand decides the built-in operation:
    with an [int] divisor a uint32_t dividend is divided as unsigned,
    with an int64_t divisor as signed. *)
Example division_depends_on_operand_type :
  native_binop OpDiv uint32_t 10 int (-2) = Some (uint32_t, 0) /\
  native_binop OpDiv uint32_t 10 int64_t (-2) = Some (int64_t, -5).
Proof. split; reflexivity. Qed.

(** Division by zero: the hook has been called, then the expression has
    no value. *)
Example division_by_zero :
  STRONG_INT_VS_NUMERIC_BINARY_OP OpDiv (numeric_hook OpDiv)
    (mkStrongInt 100 : Bytes) (mkNum int 0) initial_state =
  (Undefined, log initial_state [ValidateDivide 100 0]).
Proof. reflexivity. Qed.

(** A shift count is handed to the hook as an int64_t. *)
Example shift_hook_sees_int64 :
  STRONG_INT_VS_NUMERIC_BINARY_OP OpShl (numeric_hook OpShl)
    (mkStrongInt 3 : Bytes) (mkNum uint64_t 4) initial_state =
  (Returned (mkStrongInt 48),
   log initial_state [ValidateLeftShift 3 4; ValidateInit 48]).
Proof. reflexivity. Qed.

(** StrongIntRange(3, 3) binds nothing and increments nothing. *)
Example range_of_equal_bounds :
  range_for 1 (mkRange (mkIterator (mkStrongInt 3 : Bytes))
                       (mkIterator (mkStrongInt 3))) initial_state =
  (Returned (Some []),
   mkState {[ 1%positive := mkStrongInt 3 ]} []).
Proof. reflexivity. Qed.

(** StrongIntRange(3): the zero is built first, through the init hook. *)
Example range_from_end_alone :
  (r <- StrongIntRange_end (mkStrongInt 3 : Bytes) ;; range_for 4 r)
    initial_state =
  (Returned (Some [mkStrongInt 0; mkStrongInt 1; mkStrongInt 2]),
   mkState {[ 1%positive := mkStrongInt 3 ]}
           [ValidateInit 0; ValidateAdd 0 1; ValidateAdd 1 1;
            ValidateAdd 2 1]).
Proof. reflexivity. Qed.

(** With too few turns the loop is reported as still running. *)
Example range_out_of_fuel :
  fst (range_for 2 (mkRange (mkIterator (mkStrongInt 0 : Bytes))
                            (mkIterator (mkStrongInt 5))) initial_state) =
  Returned None.
Proof. reflexivity. Qed.

(** ** The statements at concrete values *)

(** C1 at MyStrongInt8(100) * 3: the product 300 leaves int8_t and is
    stored as 44, in both operand orders. *)
Lemma strong_vs_numeric_operators_witness :
  In OpMul [OpMul; OpDiv; OpMod; OpShl; OpShr] /\
  (exists m,
     binary_expr OpMul (Strong (mkStrongInt 100 : MyStrongInt8))
                 (Numeric (mkNum int 3)) = Some m /\
     m initial_state =
       (Returned (mkStrongInt 44),
        log initial_state [ValidateMultiply 100 3; ValidateInit 44])) /\
  (exists m',
     binary_expr OpMul (Numeric (mkNum int 3))
                 (Strong (mkStrongInt 100 : MyStrongInt8)) = Some m' /\
     m' initial_state =
       (Returned (mkStrongInt 44),
        log initial_state [ValidateMultiply 100 3; ValidateInit 44])).
Proof.
  assert (Hop : In OpMul [OpMul; OpDiv; OpMod; OpShl; OpShr])
    by (left; reflexivity).
  split; [exact Hop|].
  destruct (strong_vs_numeric_operators OpMul
              (mkStrongInt 100 : MyStrongInt8) (mkNum int 3)
              initial_state Hop) as (Hdirect & Hcommuted & _).
  split; [exact Hdirect|exact (Hcommuted eq_refl)].
Defined.

(** C2 at StrongIntRange(0, 5) over MyStrongInt8. *)
Lemma range_yields_begin_to_end_witness :
  in_range int8_t 0 /\ in_range int8_t 5 /\ 0 <= 5 /\
  exists s',
    (r <- StrongIntRange_begin_end (mkStrongInt 0 : MyStrongInt8)
                                   (mkStrongInt 5) ;;
     range_for 6 r) initial_state =
      (Returned (Some [mkStrongInt 0; mkStrongInt 1; mkStrongInt 2;
                       mkStrongInt 3; mkStrongInt 4]), s') /\
    hook_trace s' =
      [ValidateAdd 0 1; ValidateAdd 1 1; ValidateAdd 2 1; ValidateAdd 3 1;
       ValidateAdd 4 1].
Proof.
  assert (H0 : in_range int8_t 0) by (apply in_rangeb_spec; reflexivity).
  assert (H5 : in_range int8_t 5) by (apply in_rangeb_spec; reflexivity).
  assert (Hle : 0 <= 5) by lia.
  split; [exact H0|]. split; [exact H5|]. split; [exact Hle|].
  destruct (range_yields_begin_to_end 6
              (mkStrongInt 0 : MyStrongInt8) (mkStrongInt 5) initial_state
              H0 H5 Hle
              (fun v _ => NullStrongIntValidator_returns (ValidateAdd v 1))
              ltac:(simpl; lia))
    as (Hloop & _).
  exact Hloop.
Defined.

(** C3 at MyStrongInt8(100) + MyStrongInt8(100): the sum 200 wraps
    to -56. *)
Lemma strong_vs_strong_wraparound_witness :
  In OpAdd [OpAdd; OpSub; OpBitAnd; OpBitOr; OpBitXor] /\
  in_range int8_t 100 /\
  exists m,
    binary_expr OpAdd (Strong (mkStrongInt 100 : MyStrongInt8))
                (Strong (mkStrongInt 100 : MyStrongInt8)) = Some m /\
    m initial_state =
      (Returned (mkStrongInt (-56)),
       log initial_state [ValidateAdd 100 100; ValidateInit (-56)]).
Proof.
  assert (Hop : In OpAdd [OpAdd; OpSub; OpBitAnd; OpBitOr; OpBitXor])
    by (left; reflexivity).
  assert (H100 : in_range int8_t 100) by (apply in_rangeb_spec; reflexivity).
  split; [exact Hop|]. split; [exact H100|].
  destruct (strong_vs_strong_wraparound (TagType := "MyStrongInt8")
              OpAdd 100 100 initial_state Hop H100 H100)
    as (_ & _ & Hsum & _).
  exact Hsum.
Defined.

(** C4 at an int8_t object holding 41. *)
Lemma increment_and_decrement_witness :
  let x : MyStrongInt8 := mkStrongInt 41 in
  let s := mkState {[ 1%positive := x ]} [] in
  heap s !! 1%positive = Some x /\
  operator_preinc 1%positive s =
    (Returned 1%positive,
     mkState (<[1%positive := mkStrongInt 42]> (heap s)) [ValidateAdd 41 1]) /\
  operator_postinc 1%positive s =
    (Returned x,
     mkState (<[1%positive := mkStrongInt 42]> (heap s)) [ValidateAdd 41 1]) /\
  operator_predec 1%positive s =
    (Returned 1%positive,
     mkState (<[1%positive := mkStrongInt 40]> (heap s))
             [ValidateSubtract 41 1]) /\
  operator_postdec 1%positive s =
    (Returned x,
     mkState (<[1%positive := mkStrongInt 40]> (heap s))
             [ValidateSubtract 41 1]).
Proof.
  intros x s.
  assert (Hx : heap s !! 1%positive = Some x) by reflexivity.
  split; [exact Hx|].
  destruct (increment_and_decrement 1%positive x s Hx eq_refl eq_refl)
    as ((Hpre & _) & (Hpost & _) & (Hpred & _) & (Hpostd & _) & _).
  split; [exact Hpre|]. split; [exact Hpost|].
  split; [exact Hpred|exact Hpostd].
Defined.

(** C5 at Bytes(3) < Bytes(5). *)
Lemma comparison_is_native_and_silent_witness :
  in_range int64_t 3 /\ in_range int64_t 5 /\
  STRONG_INT_COMPARISON_OP CmpLt (mkStrongInt 3 : Bytes) (mkStrongInt 5)
                           initial_state =
    (Returned true, initial_state).
Proof.
  assert (H3 : in_range int64_t 3) by (apply in_rangeb_spec; reflexivity).
  assert (H5 : in_range int64_t 5) by (apply in_rangeb_spec; reflexivity).
  split; [exact H3|]. split; [exact H5|].
  destruct (comparison_is_native_and_silent CmpLt
              (mkStrongInt 3 : Bytes) (mkStrongInt 5) initial_state H3 H5)
    as (Hrun & Hcmp).
  rewrite Hrun, Hcmp. reflexivity.
Defined.

(** C7 at two Bytes(7) and an empty table of four buckets. *)
Lemma equal_values_hash_equally_witness :
  let x : Bytes := mkStrongInt 7 in
  let y : Bytes := mkStrongInt 7 in
  let m : unordered_map "Bytes" int64_t NullStrongIntValidator nat :=
    unordered_map_new 4 in
  value x = value y /\ buckets m <> [] /\
  std_hash x = std_hash y /\
  exists m',
    map_insert m x 1%nat initial_state = (Returned m', initial_state) /\
    map_find m' y initial_state = (Returned (Some 1%nat), initial_state).
Proof.
  intros x y m.
  assert (Hxy : value x = value y) by reflexivity.
  assert (Hm : buckets m <> []) by discriminate.
  split; [exact Hxy|]. split; [exact Hm|].
  destruct (equal_values_hash_equally x y m 1%nat initial_state Hxy Hm)
    as (_ & Hhash & _ & m' & v' & Hins & Hfind & _ & Hfresh).
  split; [exact Hhash|].
  exists m'. split; [exact Hins|].
  rewrite Hfind, (Hfresh eq_refl). reflexivity.
Defined.

(** C8 at MyStrongInt8(65). *)
Lemma eight_bit_renders_as_number_witness :
  width int8_t = W8 /\ in_range int8_t 65 /\
  operator_shl_ostream EmptyString (mkStrongInt 65 : MyStrongInt8)
    = "65"%string /\
  ostream_insert_generic EmptyString (mkStrongInt 65 : MyStrongInt8)
    = "A"%string.
Proof.
  assert (H65 : in_range int8_t 65) by (apply in_rangeb_spec; reflexivity).
  split; [reflexivity|]. split; [exact H65|].
  destruct (eight_bit_renders_as_number EmptyString
              (mkStrongInt 65 : MyStrongInt8) eq_refl H65)
    as (_ & _ & _ & Hgeneric & Hshow).
  split; [exact (Hshow eq_refl)|exact Hgeneric].
Defined.

(** C9 as claimed fails at 3 % Bytes(7): no operator takes the numeric
    operand on the left, so nothing evaluates to Bytes(7 % 3). *)
Lemma numeric_left_modulo_has_no_operator :
  ~ (exists m,
       binary_expr OpMod (Numeric (mkNum int 3))
                   (Strong (mkStrongInt 7 : Bytes)) = Some m /\
       fst (m initial_state) = Returned (mkStrongInt (Z.rem 7 3))).
Proof. intros (m & Hm & _). discriminate Hm. Qed.

(** C9 as the header has it, at Bytes(7) % 3 = Bytes(1). *)
Lemma numeric_operand_goes_right_witness :
  In OpMod [OpMod; OpShl; OpShr] /\
  binary_expr OpMod (Numeric (mkNum int 3)) (Strong (mkStrongInt 7 : Bytes))
    = None /\
  exists m,
    binary_expr OpMod (Strong (mkStrongInt 7 : Bytes)) (Numeric (mkNum int 3))
      = Some m /\
    m initial_state =
      (Returned (mkStrongInt 1),
       log initial_state [ValidateModulo 7 3; ValidateInit 1]).
Proof.
  assert (Hop : In OpMod [OpMod; OpShl; OpShr]) by (left; reflexivity).
  split; [exact Hop|].
  destruct (numeric_operand_goes_right OpMod (mkStrongInt 7 : Bytes)
              (mkNum int 3) initial_state Hop)
    as (Hleft & Hright & _).
  split; [exact Hleft|exact Hright].
Defined.

(** C10 at StrongIntRange(126, -126) over MyStrongInt8: four increments
    through 127 and -128. *)
Lemma range_terminates_by_wraparound_witness :
  in_range int8_t 126 /\ in_range int8_t (-126) /\
  exists s',
    range_for 5 (mkRange (mkIterator (mkStrongInt 126 : MyStrongInt8))
                         (mkIterator (mkStrongInt (-126)))) initial_state =
      (Returned (Some [mkStrongInt 126; mkStrongInt 127; mkStrongInt (-128);
                       mkStrongInt (-127)]), s') /\
    hook_trace s' =
      [ValidateAdd 126 1; ValidateAdd 127 1; ValidateAdd (-128) 1;
       ValidateAdd (-127) 1].
Proof.
  assert (Hb : in_range int8_t 126) by (apply in_rangeb_spec; reflexivity).
  assert (He : in_range int8_t (-126)) by (apply in_rangeb_spec; reflexivity).
  split; [exact Hb|]. split; [exact He|].
  destruct (range_terminates_by_wraparound
              (mkStrongInt 126 : MyStrongInt8) (mkStrongInt (-126))
              initial_state Hb He
              (fun v => NullStrongIntValidator_returns (ValidateAdd v 1)))
    as (Hends & _).
  destruct (Hends 5%nat ltac:(vm_compute; lia)) as (s' & Hrun & Htrace & _).
  exists s'. split; [exact Hrun|exact Htrace].
Defined.

(** * More of the header: accessors, unary operators, op-assign *)

(** ** Arithmetic modulo the width *)

Lemma lxor_mod_pow2 (a b w : Z) :
  0 <= w -> Z.lxor a b mod 2 ^ w = Z.lxor (a mod 2 ^ w) (b mod 2 ^ w).
Proof.
  intros Hw. rewrite <- !Z.land_ones by assumption.
  apply Z.bits_inj'. intros i Hi.
  rewrite Z.lxor_spec, !Z.land_spec, Z.lxor_spec.
  now destruct (Z.testbit a i), (Z.testbit b i), (Z.testbit (Z.ones w) i).
Qed.

Lemma static_cast_lxor_l (t : IntType) (a b : Z) :
  static_cast t (Z.lxor (static_cast t a) b) = static_cast t (Z.lxor a b).
Proof.
  pose proof (bits_bounds t).
  apply static_cast_congr.
  rewrite lxor_mod_pow2 by lia. rewrite static_cast_mod.
  now rewrite <- lxor_mod_pow2 by lia.
Qed.

Lemma static_cast_add_l (t : IntType) (a b : Z) :
  static_cast t (static_cast t a + b) = static_cast t (a + b).
Proof.
  apply static_cast_congr.
  now rewrite Zplus_mod, static_cast_mod, <- Zplus_mod.
Qed.

Lemma static_cast_sub_l (t : IntType) (a b : Z) :
  static_cast t (static_cast t a - b) = static_cast t (a - b).
Proof.
  apply static_cast_congr.
  now rewrite Zminus_mod, static_cast_mod, <- Zminus_mod.
Qed.

Lemma static_cast_opp (t : IntType) (a : Z) :
  static_cast t (- static_cast t a) = static_cast t (- a).
Proof.
  replace (- static_cast t a) with (0 - static_cast t a) by lia.
  replace (- a) with (0 - a) by lia.
  apply static_cast_congr.
  now rewrite Zminus_mod, static_cast_mod, <- Zminus_mod.
Qed.

(** A shift count converted to int64_t shifts as the count itself. *)
Lemma shift_count_int64 (op : BinOp) (t tn : IntType) (v n : Z) :
  op = OpShl \/ op = OpShr ->
  in_range tn n ->
  native_binop op t v int64_t (static_cast int64_t n) =
  native_binop op t v tn n.
Proof.
  intros Hop Hn.
  assert (Hp : static_cast (promote tn) n = n)
    by (apply static_cast_id, in_range_promote, Hn).
  assert (Hbits : bits (promote t) <= 64) by apply bits_bounds.
  assert (H64 : forall z, static_cast (promote int64_t) z = static_cast int64_t z)
    by reflexivity.
  destruct (in_rangeb int64_t n) eqn:Hr.
  - apply in_rangeb_spec in Hr.
    destruct Hop as [-> | ->]; unfold native_binop;
      now rewrite H64, static_cast_idem, Hp, (static_cast_id int64_t n Hr).
  - assert (Hbig : 2 ^ 63 <= n < 2 ^ 64).
    { destruct tn as [[] []]; revert Hn Hr;
        unfold in_range, in_rangeb, min_value, max_value, bits; simpl; lia. }
    assert (Hneg : static_cast int64_t n < 0).
    { pose proof (static_cast_in_range int64_t n) as Hc.
      pose proof (static_cast_mod int64_t n) as Hm.
      unfold in_range in Hc.
      change (max_value int64_t) with (2 ^ 63 - 1) in Hc.
      change (bits int64_t) with 64 in Hm.
      destruct (Z.lt_ge_cases (static_cast int64_t n) 0) as [|Hpos];
        [assumption|].
      rewrite (Z.mod_small (static_cast int64_t n)) in Hm by lia.
      rewrite (Z.mod_small n) in Hm by lia. lia. }
    destruct Hop as [-> | ->]; unfold native_binop;
      rewrite H64, static_cast_idem, Hp;
      (replace (0 <=? static_cast int64_t n) with false by (symmetry; apply Z.leb_gt; lia));
      (replace (n <? bits (promote t)) with false by (symmetry; apply Z.ltb_ge; lia));
      now rewrite andb_false_r.
Qed.

Lemma static_cast_sub_r (t : IntType) (a b : Z) :
  static_cast t (a - static_cast t b) = static_cast t (a - b).
Proof.
  apply static_cast_congr.
  now rewrite Zminus_mod, static_cast_mod, <- Zminus_mod.
Qed.

Lemma static_cast_widen_zero (t ct : IntType) (v : Z) :
  in_range t v -> bits t <= bits ct ->
  (static_cast ct v =? 0) = (v =? 0).
Proof.
  intros Hv Hbits.
  destruct (Z.eqb_spec v 0) as [->|Hne].
  - now rewrite static_cast_zero.
  - apply Z.eqb_neq. intros Hz. apply Hne.
    rewrite <- (static_cast_id t v Hv), <- (static_cast_narrow t ct v Hbits), Hz.
    apply static_cast_zero.
Qed.

Lemma read_decimal_decimal (z : Z) : read_decimal (decimal z) = Some z.
Proof.
  unfold read_decimal, decimal.
  rewrite NilZero.isi.
  - simpl. now rewrite DecimalZ.of_to.
  - destruct z; simpl; try discriminate.
    intros [= H]. now apply (Unsigned.to_uint_nonnil p).
  - destruct z; simpl; try discriminate.
    intros [= H]. now apply (Unsigned.to_uint_nonnil p).
Qed.

(** ** Op-assign and the free operators *)

Section AssignFacts.

Context {TagType : Tag} {NativeType : IntType} {ValidatorType : Validator}.

Local Abbreviation SI := (StrongInt TagType NativeType ValidatorType).
Local Abbreviation St := (State TagType NativeType ValidatorType).
Local Abbreviation MSI := (M TagType NativeType ValidatorType).

Lemma compound_assign_run (op : BinOp) (hook : Z -> HookCall)
    (arg_type : IntType) (arg : Z) (this : loc) (x : SI) (s : St) :
  heap s !! this = Some x ->
  compound_assign op hook arg_type arg this s =
  if hook_returns ValidatorType (hook (value x)) then
    match native_assign_op op NativeType (value x) arg_type arg with
    | Some r =>
        (Returned this,
         mkState (<[this := mkStrongInt r]> (heap s))
                 (hook_trace s ++ [hook (value x)]))
    | None => (Undefined, log s [hook (value x)])
    end
  else (Aborted, log s [hook (value x)]).
Proof.
  intros Hx. unfold compound_assign, bind, load, value. rewrite Hx.
  rewrite call_hook_run.
  destruct (hook_returns ValidatorType (hook (value_ x))); [|reflexivity].
  unfold log at 1. cbn [heap]. rewrite Hx.
  destruct (native_assign_op op NativeType (value_ x) arg_type arg);
    [|reflexivity].
  unfold store, ret, log. cbn [heap hook_trace]. now rewrite Hx.
Qed.

Lemma native_assign_same_type (op : BinOp) (a b : Z) :
  In op [OpAdd; OpSub; OpBitAnd; OpBitOr; OpBitXor] ->
  in_range NativeType a -> in_range NativeType b ->
  native_assign_op op NativeType a NativeType b =
  Some (static_cast NativeType (Z_binop op a b)).
Proof.
  intros Hop Ha Hb.
  destruct (native_same_type NativeType op a b Hop Ha Hb) as (t & r & Hr & Heq).
  unfold native_assign_op. now rewrite Hr, Heq.
Qed.

(** X1: for each of [+ - & | ^], [x op= y] and [x op y] call the same
    hook on the same operands and come to the same value, a op b reduced
    into the native type: the member stores it in [x] and returns [x],
    the free operator returns it in a new StrongInt, after one more call,
    of the init hook on the result. *)
Theorem strong_assign_agrees_with_operator
    (op : BinOp) (this : loc) (x y : SI) (s : St) :
  In op [OpAdd; OpSub; OpBitAnd; OpBitOr; OpBitXor] ->
  heap s !! this = Some x ->
  in_range NativeType (value x) -> in_range NativeType (value y) ->
  let h := binary_hook op (value x) (value y) in
  let r := static_cast NativeType (Z_binop op (value x) (value y)) in
  exists (assign : loc -> SI -> M TagType NativeType ValidatorType loc)
         (operator : M TagType NativeType ValidatorType SI),
    strong_assign op = Some assign /\
    binary_expr op (Strong x) (Strong y) = Some operator /\
    assign this y s =
      (if hook_returns ValidatorType h
       then (Returned this,
             mkState (<[this := mkStrongInt r]> (heap s)) (hook_trace s ++ [h]))
       else (Aborted, log s [h])) /\
    operator s =
      (if hook_returns ValidatorType h
       then (if hook_returns ValidatorType (ValidateInit r)
             then Returned (mkStrongInt r) else Aborted,
             log s [h; ValidateInit r])
       else (Aborted, log s [h])).
Proof.
  intros Hop Hx Hvx Hvy h r.
  pose proof (native_assign_same_type op _ _ Hop Hvx Hvy) as Hnative.
  pose proof (strong_vs_strong_run op (binary_hook op) x y s Hop Hvx Hvy) as Hfree.
  pose proof (strong_vs_strong_resolves op x y Hop) as Hres.
  simpl in Hop.
  destruct Hop as [<-|[<-|[<-|[<-|[<-|[]]]]]];
    eexists; eexists; (split; [reflexivity|]); (split; [exact Hres|]);
    (split; [|exact Hfree]);
    unfold operator_add_assign, operator_sub_assign, operator_and_assign,
           operator_or_assign, operator_xor_assign;
    rewrite (compound_assign_run _ _ _ _ this x s Hx), Hnative; reflexivity.
Qed.

(** X2: for each of [* / % << >>] and a numeric [n] of its type,
    [x op= n] and [x op n] call the same hook and compute the same
    built-in operation, although the shift members receive [n] converted
    to int64_t: both have no value where the built-in operation has none,
    and otherwise the member stores what the free operator returns. *)
Theorem numeric_assign_agrees_with_operator
    (op : BinOp) (this : loc) (x : SI) (n : Num) (s : St) :
  In op [OpMul; OpDiv; OpMod; OpShl; OpShr] ->
  heap s !! this = Some x ->
  in_range (num_type n) (num_value n) ->
  let h := numeric_hook op (value x) n in
  let native :=
    native_binop op NativeType (value x) (num_type n) (num_value n) in
  exists (assign : loc -> Num -> M TagType NativeType ValidatorType loc)
         (operator : M TagType NativeType ValidatorType SI),
    numeric_assign op = Some assign /\
    binary_expr op (Strong x) (Numeric n) = Some operator /\
    assign this n s =
      (if hook_returns ValidatorType h then
         match native with
         | Some (_, z) =>
             (Returned this,
              mkState (<[this := mkStrongInt (static_cast NativeType z)]> (heap s))
                      (hook_trace s ++ [h]))
         | None => (Undefined, log s [h])
         end
       else (Aborted, log s [h])) /\
    operator s =
      (if hook_returns ValidatorType h then
         match native with
         | Some (_, z) =>
             (if hook_returns ValidatorType
                   (ValidateInit (static_cast NativeType z))
              then Returned (mkStrongInt (static_cast NativeType z))
              else Aborted,
              log s [h; ValidateInit (static_cast NativeType z)])
         | None => (Undefined, log s [h])
         end
       else (Aborted, log s [h])).
Proof.
  intros Hop Hx Hn h native.
  pose proof (strong_vs_numeric_run op x n s) as Hfree.
  pose proof (strong_vs_numeric_resolves op x n Hop) as Hres.
  assert (Hshl := shift_count_int64 OpShl NativeType (num_type n) (value x)
                    (num_value n) (or_introl eq_refl) Hn).
  assert (Hshr := shift_count_int64 OpShr NativeType (num_type n) (value x)
                    (num_value n) (or_intror eq_refl) Hn).
  simpl in Hop.
  destruct Hop as [<-|[<-|[<-|[<-|[<-|[]]]]]];
    eexists; eexists; (split; [reflexivity|]); (split; [exact Hres|]);
    (split; [|exact Hfree]);
    unfold operator_mul_assign, operator_div_assign, operator_mod_assign,
           operator_shl_assign, operator_shr_assign;
    rewrite (compound_assign_run _ _ _ _ this x s Hx);
    unfold native_assign_op; rewrite ?Hshl, ?Hshr;
    subst h native;
    unfold numeric_hook, templated_rhs, int64_rhs, binary_hook;
    destruct (hook_returns ValidatorType _); try reflexivity;
    destruct (native_binop _ _ _ _ _) as [[t z]|]; reflexivity.
Qed.


Lemma insert_back (this : loc) (x x' : SI) (s : St) :
  heap s !! this = Some x ->
  <[this := x]> (<[this := x']> (heap s)) = heap s.
Proof. intros Hx. rewrite insert_insert_eq. now apply insert_id. Qed.

(** X4: with hooks that return, [--(++x)], [(x += y) -= y] and
    [(x ^= y) ^= y] leave every object as it was, for all values of the
    native type, the ones at which the first step wraps included; the two
    hook calls are those of the two steps. *)
Theorem mutations_round_trip (this : loc) (x y : SI) (s : St) :
  heap s !! this = Some x ->
  in_range NativeType (value x) -> in_range NativeType (value y) ->
  (forall h, hook_returns ValidatorType h = true) ->
  let v := value x in
  let b := value y in
  (l <- operator_preinc this ;; operator_predec l) s =
    (Returned this,
     log s [ValidateAdd v 1;
            ValidateSubtract (static_cast NativeType (v + 1)) 1]) /\
  (l <- operator_add_assign this y ;; operator_sub_assign l y) s =
    (Returned this,
     log s [ValidateAdd v b;
            ValidateSubtract (static_cast NativeType (v + b)) b]) /\
  (l <- operator_xor_assign this y ;; operator_xor_assign l y) s =
    (Returned this,
     log s [ValidateBitXor v b;
            ValidateBitXor (static_cast NativeType (Z.lxor v b)) b]).
Proof.
  intros Hx Hv Hb Hret v b.
  assert (Hxv : x = mkStrongInt v) by now destruct x.
  assert (Hfive : forall op, In op [OpAdd; OpSub; OpBitXor] ->
            In op [OpAdd; OpSub; OpBitAnd; OpBitOr; OpBitXor])
    by (simpl; tauto).
  assert (Hassign : forall op hook (c : Z) (s' : St),
            In op [OpAdd; OpSub; OpBitXor] ->
            heap s' !! this = Some (mkStrongInt c) ->
            in_range NativeType c ->
            compound_assign op hook NativeType b this s' =
            (Returned this,
             mkState (<[this := mkStrongInt
                                  (static_cast NativeType (Z_binop op c b))]>
                        (heap s'))
                     (hook_trace s' ++ [hook c]))).
  { intros op hook c s' Hop Hc Hrange.
    rewrite (compound_assign_run _ _ _ _ this _ s' Hc), Hret.
    cbn [value value_].
    now rewrite (native_assign_same_type op c b (Hfive op Hop) Hrange Hb). }
  rewrite Hxv in Hx.
  split; [|split].
  - unfold bind. rewrite (operator_preinc_run this _ s Hx), Hret.
    erewrite operator_predec_run by (cbn [heap]; apply lookup_insert_eq).
    rewrite Hret. unfold log. cbn [heap hook_trace value value_].
    unfold native_decr, native_incr.
    rewrite static_cast_sub_l.
    replace (v + 1 - 1) with v by lia.
    rewrite (static_cast_id _ v Hv), (insert_back this _ _ s Hx).
    now rewrite <- app_assoc.
  - unfold bind, operator_add_assign, operator_sub_assign. fold b.
    rewrite (Hassign OpAdd _ v s ltac:(simpl; tauto) Hx Hv).
    erewrite (Hassign OpSub)
      by first [ apply static_cast_in_range
               | cbn [heap]; apply lookup_insert_eq
               | simpl; tauto ].
    unfold log. cbn [heap hook_trace Z_binop].
    rewrite static_cast_sub_l.
    replace (v + b - b) with v by lia.
    rewrite (static_cast_id _ v Hv), (insert_back this _ _ s Hx).
    now rewrite <- app_assoc.
  - unfold bind, operator_xor_assign. fold b.
    rewrite (Hassign OpBitXor _ v s ltac:(simpl; tauto) Hx Hv).
    erewrite (Hassign OpBitXor)
      by first [ apply static_cast_in_range
               | cbn [heap]; apply lookup_insert_eq
               | simpl; tauto ].
    unfold log. cbn [heap hook_trace Z_binop].
    rewrite static_cast_lxor_l.
    rewrite Z.lxor_assoc, Z.lxor_nilpotent, Z.lxor_0_r.
    rewrite (static_cast_id _ v Hv), (insert_back this _ _ s Hx).
    now rewrite <- app_assoc.
Qed.


(** ** Unary operators, comparisons, hashing, accessors *)

Lemma operator_neg_run (x : SI) (s : St) :
  in_range NativeType (value x) ->
  (forall h, hook_returns ValidatorType h = true) ->
  operator_neg x s =
  (Returned (mkStrongInt (static_cast NativeType (- value x))),
   log s [ValidateNegate (value x);
          ValidateInit (static_cast (promote NativeType) (- value x))]).
Proof.
  intros Hv Hret. unfold operator_neg, bind, native_neg.
  rewrite call_hook_run, Hret, StrongInt_init_run, Hret, log_log.
  cbn [num_value app]. unfold value in *.
  rewrite (static_cast_id (promote NativeType) (value_ x))
    by now apply in_range_promote.
  now rewrite static_cast_narrow by apply bits_promote.
Qed.

Lemma operator_bitnot_run (x : SI) (s : St) :
  in_range NativeType (value x) ->
  (forall h, hook_returns ValidatorType h = true) ->
  operator_bitnot x s =
  (Returned (mkStrongInt (static_cast NativeType (- value x - 1))),
   log s [ValidateBitNot (value x);
          ValidateInit (static_cast NativeType (- value x - 1))]).
Proof.
  intros Hv Hret. unfold operator_bitnot, bind, native_bitnot.
  rewrite call_hook_run, Hret, StrongInt_init_run, Hret, log_log.
  cbn [num_value app]. unfold value in *.
  rewrite (static_cast_id (promote NativeType) (value_ x))
    by now apply in_range_promote.
  rewrite static_cast_idem, static_cast_narrow by apply bits_promote.
  replace (Z.lnot (value_ x)) with (- value_ x - 1) by (unfold Z.lnot; lia).
  reflexivity.
Qed.

(** X5: with hooks that return and [v] the value of [x]: [+x] is [x]
    after the init hook; [-x] holds -v reduced into the native type, and
    the init hook sees the negation in the promoted type; [~x] holds
    -v-1 reduced into the native type; [!x] tells whether v is zero and
    calls no hook; [-(-x)] and [~(~x)] are [x]. *)
Theorem unary_operators (x : SI) (s : St) :
  in_range NativeType (value x) ->
  (forall h, hook_returns ValidatorType h = true) ->
  let v := value x in
  operator_plus x s = (Returned x, log s [ValidateInit v]) /\
  operator_neg x s =
    (Returned (mkStrongInt (static_cast NativeType (- v))),
     log s [ValidateNegate v;
            ValidateInit (static_cast (promote NativeType) (- v))]) /\
  operator_bitnot x s =
    (Returned (mkStrongInt (static_cast NativeType (- v - 1))),
     log s [ValidateBitNot v;
            ValidateInit (static_cast NativeType (- v - 1))]) /\
  operator_not x s = (Returned (v =? 0), s) /\
  fst ((y <- operator_neg x ;; operator_neg y) s) = Returned x /\
  fst ((y <- operator_bitnot x ;; operator_bitnot y) s) = Returned x.
Proof.
  intros Hv Hret v.
  assert (Hxv : x = mkStrongInt v) by now destruct x.
  split; [|split; [|split; [|split; [|split]]]].
  - unfold operator_plus. rewrite StrongInt_init_run, Hret.
    cbn [num_value]. fold (value x). fold v.
    now rewrite (static_cast_id _ v Hv), <- Hxv.
  - now apply operator_neg_run.
  - now apply operator_bitnot_run.
  - unfold operator_not, ret, native_cmp. fold (value x). fold v.
    rewrite static_cast_zero.
    now rewrite (static_cast_widen_zero NativeType _ v Hv)
      by apply bits_common_type_l.
  - unfold bind. rewrite (operator_neg_run x s Hv Hret).
    rewrite operator_neg_run
      by first [assumption | apply static_cast_in_range].
    cbn [fst value value_]. fold v.
    rewrite static_cast_opp, Z.opp_involutive, (static_cast_id _ v Hv).
    now rewrite Hxv.
  - unfold bind. rewrite (operator_bitnot_run x s Hv Hret).
    rewrite operator_bitnot_run
      by first [assumption | apply static_cast_in_range].
    cbn [fst value value_]. fold v.
    replace (- static_cast NativeType (- v - 1) - 1)
      with (- 1 - static_cast NativeType (- v - 1)) by lia.
    rewrite static_cast_sub_r.
    replace (- 1 - (- v - 1)) with v by lia.
    rewrite (static_cast_id _ v Hv). now rewrite Hxv.
Qed.

(** X6: an expression with at least one StrongInt operand selects an
    operator exactly when the header's list of supported operations has
    it ([+ - & | ^] on two StrongInt, [* / % << >>] on a StrongInt and a
    number), or when it is number * StrongInt.  So no operator adds a
    number to a StrongInt or multiplies two StrongInt. *)
Theorem supported_operations (op : BinOp)
    (lhs rhs : Operand TagType NativeType ValidatorType) :
  is_strong lhs || is_strong rhs = true ->
  (is_Some (binary_expr op lhs rhs) <->
   documented op (is_strong lhs) (is_strong rhs) = true \/
   (op = OpMul /\ is_strong lhs = false /\ is_strong rhs = true)).
Proof.
  intros Hstrong.
  destruct lhs as [a|n], rhs as [b|m]; try discriminate Hstrong;
    destruct op; cbn; split;
    try (intros _; eexists; reflexivity);
    try (intros _; left; reflexivity);
    try (intros _; right; repeat split; reflexivity);
    try (intros [z Hz]; discriminate Hz);
    try (intros [Hd|(Ho & Hl & Hr)]; discriminate).
Qed.

(** X7: on values of the native type the six comparisons are those of
    one strict total order: [==] holds exactly for equal objects, [!=] is
    its negation, [x > y] is [y < x], [x <= y] is not [y < x], [x >= y] is
    not [x < y], exactly one of [x < y], [x == y], [y < x] holds, and [<]
    is transitive. *)
Theorem comparisons_form_a_total_order (x y z : SI) (s : St) :
  in_range NativeType (value x) -> in_range NativeType (value y) ->
  in_range NativeType (value z) ->
  let cmp op a b := STRONG_INT_COMPARISON_OP op a b s in
  (cmp CmpEq x y = (Returned true, s) <-> x = y) /\
  cmp CmpNe x y = (b <- STRONG_INT_COMPARISON_OP CmpEq x y ;; ret (negb b)) s /\
  cmp CmpGt x y = cmp CmpLt y x /\
  cmp CmpLe x y = (b <- STRONG_INT_COMPARISON_OP CmpLt y x ;; ret (negb b)) s /\
  cmp CmpGe x y = (b <- STRONG_INT_COMPARISON_OP CmpLt x y ;; ret (negb b)) s /\
  (cmp CmpLt x y = (Returned true, s) \/ cmp CmpEq x y = (Returned true, s) \/
   cmp CmpLt y x = (Returned true, s)) /\
  (cmp CmpLt x y = (Returned true, s) -> cmp CmpLt y x = (Returned false, s)) /\
  (cmp CmpLt x y = (Returned true, s) -> cmp CmpLt y z = (Returned true, s) ->
   cmp CmpLt x z = (Returned true, s)).
Proof.
  intros Hx Hy Hz cmp. subst cmp. cbv beta.
  unfold STRONG_INT_COMPARISON_OP, bind, ret.
  rewrite !native_cmp_same_type by assumption. cbn [Z_cmp].
  split; [|split; [|split; [|split; [|split; [|split; [|split]]]]]].
  - split.
    + intros [= Heq]. apply value_inj. now apply Z.eqb_eq.
    + intros ->. now rewrite Z.eqb_refl.
  - reflexivity.
  - now rewrite Z.gtb_ltb.
  - now rewrite Z.leb_antisym.
  - now rewrite Z.geb_leb, Z.leb_antisym.
  - destruct (Z.lt_trichotomy (value x) (value y)) as [Hlt|[Heq|Hgt]].
    + left. apply Z.ltb_lt in Hlt. now rewrite Hlt.
    + right; left. apply Z.eqb_eq in Heq. now rewrite Heq.
    + right; right. apply Z.ltb_lt in Hgt. now rewrite Hgt.
  - intros [= Hlt]. apply Z.ltb_lt in Hlt.
    assert (Hge : (value y <? value x) = false) by (apply Z.ltb_ge; lia).
    now rewrite Hge.
  - intros [= Hxy] [= Hyz]. apply Z.ltb_lt in Hxy, Hyz.
    assert (Hxz : (value x <? value z) = true) by (apply Z.ltb_lt; lia).
    now rewrite Hxz.
Qed.

(** X8: the hash of a StrongInt is a size_t from which the value is
    recovered by converting back to the native type, so distinct values
    never share a hash; std::hash gives the same hash. *)
Theorem hasher_is_injective (x y : SI) :
  in_range NativeType (value x) -> in_range NativeType (value y) ->
  0 <= Hasher x < 2 ^ 64 /\
  std_hash x = Hasher x /\
  static_cast NativeType (Hasher x) = value x /\
  (Hasher x = Hasher y -> x = y).
Proof.
  intros Hx Hy.
  assert (Hback : forall a : SI, in_range NativeType (value a) ->
            static_cast NativeType (Hasher a) = value a).
  { intros a Ha. unfold Hasher.
    rewrite static_cast_narrow by apply bits_bounds.
    now apply static_cast_id. }
  split; [|split; [reflexivity|split; [now apply Hback|]]].
  - pose proof (static_cast_in_range size_t (value x)) as Hr.
    unfold in_range in Hr.
    change (min_value size_t) with 0 in Hr.
    change (max_value size_t) with (2 ^ 64 - 1) in Hr.
    unfold Hasher. lia.
  - intros Hh. apply value_inj.
    now rewrite <- (Hback x Hx), <- (Hback y Hy), Hh.
Qed.

(** X9: reading the value as a type at least as wide, signed or not,
    and constructing from what was read gives the StrongInt back; the init
    hook sees the value as read.  The explicit cast reads what value<T>()
    reads, and reading as a type that holds the value gives the value. *)
Theorem widening_accessor_round_trip (W : IntType) (x : SI) (s : St) :
  in_range NativeType (value x) ->
  bits NativeType <= bits W ->
  StrongInt_init (mkNum W (value_as W x)) s =
    (if hook_returns ValidatorType (ValidateInit (value_as W x))
     then Returned x else Aborted,
     log s [ValidateInit (value_as W x)]) /\
  operator_T W x = value_as W x /\
  value_as NativeType x = value x /\
  (in_range W (value x) -> value_as W x = value x).
Proof.
  intros Hv Hbits.
  split; [|split; [reflexivity|split]].
  - assert (Hback : static_cast NativeType (value_as W x) = value x).
    { unfold value_as. fold (value x).
      now rewrite static_cast_narrow, (static_cast_id _ _ Hv) by assumption. }
    rewrite StrongInt_init_run. cbn [num_value]. rewrite Hback.
    now destruct x.
  - now apply static_cast_id.
  - intros Hw. now apply static_cast_id.
Qed.

(** X11: every StrongInt that a constructor, a binary operator or a
    unary minus or complement returns holds a value of the native type,
    whatever the operands; and in a store whose objects all do, they
    still do after an action-assignment, an increment or a decrement,
    whose snapshots are in range too. *)
Lemma StrongInt_init_in_range (n : Num) (s s' : St) (x : SI) :
  StrongInt_init n s = (Returned x, s') -> in_range NativeType (value x).
Proof.
  rewrite StrongInt_init_run.
  destruct (hook_returns ValidatorType _); [|discriminate].
  intros [= <- _]. apply static_cast_in_range.
Qed.

Lemma after_hook_in_range (h : HookCall) (m : MSI SI) (s s' : St) (x : SI) :
  (forall s1 s2 y, m s1 = (Returned y, s2) -> in_range NativeType (value y)) ->
  (call_hook h ;;; m) s = (Returned x, s') -> in_range NativeType (value x).
Proof.
  intros Hm. unfold bind. rewrite call_hook_run.
  destruct (hook_returns ValidatorType h); [|discriminate].
  apply Hm.
Qed.

Lemma binary_expr_in_range (op : BinOp)
    (lhs rhs : Operand TagType NativeType ValidatorType)
    (m : MSI SI) (s s' : St) (x : SI) :
  binary_expr op lhs rhs = Some m -> m s = (Returned x, s') ->
  in_range NativeType (value x).
Proof.
  intros Hres Hrun.
  assert (Hbody : forall (o : option (IntType * Z)) s1 s2 y,
      match o return MSI SI with
      | Some (_, r) =>
          StrongInt_init (mkNum NativeType (static_cast NativeType r))
      | None => undefined
      end s1 = (Returned y, s2) -> in_range NativeType (value y)).
  { intros [[t r]|] s1 s2 y; [apply StrongInt_init_in_range|discriminate]. }
  destruct lhs as [a|n], rhs as [b|k]; destruct op;
    cbn -[STRONG_INT_VS_STRONG_INT_BINARY_OP STRONG_INT_VS_NUMERIC_BINARY_OP
          NUMERIC_VS_STRONG_INT_BINARY_OP] in Hres;
    try discriminate Hres; injection Hres as <-;
    unfold STRONG_INT_VS_STRONG_INT_BINARY_OP, STRONG_INT_VS_NUMERIC_BINARY_OP,
           NUMERIC_VS_STRONG_INT_BINARY_OP in Hrun;
    match type of Hrun with
    | context [native_binop ?o ?t ?v ?t' ?v'] =>
        revert Hrun; generalize (native_binop o t v t' v'); intros o' Hrun
    end;
    exact (after_hook_in_range _ _ s s' x (Hbody o') Hrun).
Qed.

Lemma insert_in_range (this : loc) (r : Z) (s : St) (trace : list HookCall) :
  heap_in_range s -> in_range NativeType r ->
  heap_in_range (mkState (<[this := mkStrongInt r]> (heap s)) trace).
Proof.
  intros Hs Hr l y. cbn [heap]. rewrite lookup_insert.
  destruct (decide (this = l)) as [->|Hne].
  - intros [= <-]. exact Hr.
  - apply Hs.
Qed.

Lemma compound_assign_in_range (op : BinOp) (hook : Z -> HookCall)
    (arg_type : IntType) (arg : Z) (this : loc) (s : St) :
  heap_in_range s ->
  heap_in_range (snd (compound_assign op hook arg_type arg this s)).
Proof.
  intros Hs.
  destruct (heap s !! this) as [x|] eqn:Hx.
  - rewrite (compound_assign_run op hook arg_type arg this x s Hx).
    destruct (hook_returns ValidatorType _); [|exact Hs].
    unfold native_assign_op.
    destruct (native_binop op NativeType (value x) arg_type arg) as [[t r]|];
      [|exact Hs].
    apply insert_in_range; [exact Hs|apply static_cast_in_range].
  - unfold compound_assign, bind, load. rewrite Hx. exact Hs.
Qed.

Theorem values_stay_in_range (this : loc) (s : St) :
  heap_in_range s ->
  (forall (n : Num) (x : SI) (s' : St),
     StrongInt_init n s = (Returned x, s') -> in_range NativeType (value x)) /\
  (forall (x : SI) (s' : St),
     StrongInt_default s = (Returned x, s') -> in_range NativeType (value x)) /\
  (forall op lhs rhs (m : MSI SI) (x : SI) (s' : St),
     binary_expr op lhs rhs = Some m -> m s = (Returned x, s') ->
     in_range NativeType (value x)) /\
  (forall (a x : SI) (s' : St),
     operator_neg a s = (Returned x, s') \/
     operator_bitnot a s = (Returned x, s') ->
     in_range NativeType (value x)) /\
  (forall op hook arg_type arg,
     heap_in_range (snd (compound_assign op hook arg_type arg this s))) /\
  heap_in_range (snd (operator_preinc this s)) /\
  heap_in_range (snd (operator_predec this s)) /\
  (forall (x : SI) (s' : St),
     operator_postinc this s = (Returned x, s') \/
     operator_postdec this s = (Returned x, s') ->
     in_range NativeType (value x) /\ heap_in_range s').
Proof.
  intros Hs.
  split; [|split; [|split; [|split; [|split; [|split; [|split]]]]]].
  - intros n x s'. apply StrongInt_init_in_range.
  - intros x s'. unfold StrongInt_default, bind. rewrite call_hook_run.
    destruct (hook_returns ValidatorType _); [|discriminate].
    intros [= <- _].
    unfold in_range, value, min_value, max_value. cbn [value_].
    pose proof (half_modulus_pos NativeType). pose proof (modulus_pos NativeType).
    destruct (is_signed NativeType); lia.
  - intros op lhs rhs m x s'. apply binary_expr_in_range.
  - intros a x s' [Hrun|Hrun].
    + unfold operator_neg in Hrun.
      destruct (native_neg NativeType (value_ a)) as [t z].
      eapply after_hook_in_range; [|exact Hrun].
      intros s1 s2 y. apply StrongInt_init_in_range.
    + unfold operator_bitnot in Hrun.
      destruct (native_bitnot NativeType (value_ a)) as [t z].
      eapply after_hook_in_range; [|exact Hrun].
      intros s1 s2 y. apply StrongInt_init_in_range.
  - intros op hook arg_type arg. now apply compound_assign_in_range.
  - destruct (heap s !! this) as [x|] eqn:Hx.
    + rewrite (operator_preinc_run this x s Hx).
      destruct (hook_returns ValidatorType _); [|exact Hs].
      apply insert_in_range; [exact Hs|apply static_cast_in_range].
    + unfold operator_preinc, bind, load. rewrite Hx. exact Hs.
  - destruct (heap s !! this) as [x|] eqn:Hx.
    + rewrite (operator_predec_run this x s Hx).
      destruct (hook_returns ValidatorType _); [|exact Hs].
      apply insert_in_range; [exact Hs|apply static_cast_in_range].
    + unfold operator_predec, bind, load. rewrite Hx. exact Hs.
  - intros x s' Hrun.
    destruct (heap s !! this) as [x0|] eqn:Hx.
    + rewrite (operator_postinc_run this x0 s Hx),
              (operator_postdec_run this x0 s Hx) in Hrun.
      destruct Hrun as [Hrun|Hrun];
        (destruct (hook_returns ValidatorType _); [|discriminate Hrun]);
        injection Hrun as <- <-;
        (split; [now apply (Hs this)|]);
        (apply insert_in_range; [exact Hs|apply static_cast_in_range]).
    + unfold operator_postinc, operator_postdec, bind, load in Hrun.
      rewrite Hx in Hrun. destruct Hrun; discriminate.
Qed.

(** X12: for every native type, [os << x] appends the decimal numeral
    of the value; the numeral reads back as the value, so two StrongInt
    that print alike are equal. *)
Theorem rendering_reads_back (os : ostream) (x y : SI) :
  in_range NativeType (value x) ->
  operator_shl_ostream os x = String.append os (decimal (value x)) /\
  read_decimal (decimal (value x)) = Some (value x) /\
  (operator_shl_ostream EmptyString x = operator_shl_ostream EmptyString y ->
   in_range NativeType (value y) -> x = y).
Proof.
  intros Hx.
  assert (Hshow : forall (a : SI) os', in_range NativeType (value a) ->
            operator_shl_ostream os' a = String.append os' (decimal (value a))).
  { intros a os' Ha. unfold operator_shl_ostream.
    destruct NativeType as [w sg] eqn:Ht. cbn [width is_signed].
    destruct w; try reflexivity.
    assert (Hv : -128 <= value a < 256)
      by (apply (eight_bit_in_range (mkIntType W8 sg)); [reflexivity|assumption]).
    destruct sg.
    - unfold ostream_insert_int8, std_ostream_insert. cbn [width int int32_t].
      rewrite static_cast_id; [reflexivity|].
      unfold in_range. change (min_value int) with (-2147483648).
      change (max_value int) with 2147483647. lia.
    - unfold ostream_insert_uint8, std_ostream_insert.
      cbn [width unsigned_int uint32_t].
      rewrite static_cast_id; [reflexivity|].
      unfold in_range in *. change (min_value unsigned_int) with 0.
      change (max_value unsigned_int) with 4294967295.
      change (min_value (mkIntType W8 false)) with 0 in Ha. lia. }
  split; [now apply Hshow|]. split; [apply read_decimal_decimal|].
  intros Heq Hy. apply value_inj.
  rewrite (Hshow x EmptyString Hx), (Hshow y EmptyString Hy) in Heq.
  change (decimal (value x) = decimal (value y)) in Heq.
  pose proof (read_decimal_decimal (value x)) as Hrx.
  rewrite Heq, read_decimal_decimal in Hrx. now injection Hrx.
Qed.

(** ** A range under a validator that stops the process *)

Lemma range_for_loop_aborts (k : nat) :
  forall (fuel : nat) (it : loc) (cur e : SI) (s : St),
  heap s !! it = Some cur ->
  in_range NativeType (value cur) -> in_range NativeType (value e) ->
  (k < distance NativeType (value cur) (value e))%nat ->
  Forall (fun v => hook_returns ValidatorType (ValidateAdd v 1) = true)
         (successors NativeType (value cur) k) ->
  hook_returns ValidatorType
    (ValidateAdd (static_cast NativeType (value cur + Z.of_nat k)) 1) = false ->
  (k < fuel)%nat ->
  range_for_loop fuel it (mkIterator e) s =
  (Aborted,
   mkState (<[it := mkStrongInt (static_cast NativeType (value cur + Z.of_nat k))]>
              (heap s))
           (hook_trace s ++
              ((fun v => ValidateAdd v 1)
                 <$> successors NativeType (value cur) (S k)))).
Proof.
  induction k as [|k IH]; intros fuel it cur e s Hit Hcur He Hd Hok Hfail Hfuel;
    (destruct fuel as [|fuel]; [lia|]);
    assert (Hne : value cur <> value e)
      by (intros Heq; rewrite Heq, distance_same in Hd; lia).
  - rewrite Z.add_0_r, (static_cast_id _ _ Hcur) in *.
    cbn [range_for_loop]. unfold bind at 1. unfold load. rewrite Hit.
    unfold bind at 1. rewrite iterator_ne_run by assumption.
    apply Z.eqb_neq in Hne. rewrite Hne. cbn [negb].
    unfold bind at 1. unfold iterator_preinc. unfold bind at 1.
    rewrite (operator_preinc_run it cur s Hit), Hfail.
    unfold log. cbn [successors fmap list_fmap].
    rewrite insert_id; [reflexivity|]. now destruct cur.
  - inversion Hok as [|v vs Hv Hrest]; subst.
    rewrite (range_for_loop_step fuel it cur e s) by assumption.
    unfold bind.
    destruct (distance NativeType (value cur) (value e)) as [|d] eqn:Hdist;
      [lia|].
    rewrite (IH fuel it (mkStrongInt (native_incr NativeType (value cur))) e).
    + cbn [heap hook_trace value value_].
      rewrite insert_insert_eq, <- app_assoc.
      unfold native_incr at 1. rewrite static_cast_add_l.
      replace (value cur + 1 + Z.of_nat k) with (value cur + Z.of_nat (S k))
        by lia.
      reflexivity.
    + cbn [heap]. apply lookup_insert_eq.
    + apply static_cast_in_range.
    + assumption.
    + cbn [value value_]. rewrite (distance_succ _ _ _ _ Hdist). lia.
    + exact Hrest.
    + cbn [value value_]. unfold native_incr. rewrite static_cast_add_l.
      replace (value cur + 1 + Z.of_nat k) with (value cur + Z.of_nat (S k))
        by lia.
      exact Hfail.
    + lia.
Qed.

(** X10: if the add hook returns on the first [k] values a range loop
    visits and is fatal on the next one, all before the end value, the
    loop stops the process there: it has called the hook on these k+1
    values, the iterator still holds the last of them, and the end is
    never reached. *)
Theorem range_aborts_where_hook_fails (fuel k : nat) (b e : SI) (s : St) :
  in_range NativeType (value b) -> in_range NativeType (value e) ->
  (k < distance NativeType (value b) (value e))%nat ->
  (k < fuel)%nat ->
  (forall i, 0 <= i < Z.of_nat k ->
     hook_returns ValidatorType
       (ValidateAdd (static_cast NativeType (value b + i)) 1) = true) ->
  hook_returns ValidatorType
    (ValidateAdd (static_cast NativeType (value b + Z.of_nat k)) 1) = false ->
  let visited :=
    (fun i => static_cast NativeType (value b + i))
      <$> seqZ 0 (Z.of_nat (S k)) in
  exists s',
    range_for fuel (mkRange (mkIterator b) (mkIterator e)) s = (Aborted, s') /\
    hook_trace s' = hook_trace s ++ ((fun v => ValidateAdd v 1) <$> visited) /\
    heap s' !! fresh (dom (heap s)) =
      Some (mkStrongInt (static_cast NativeType (value b + Z.of_nat k))).
Proof.
  intros Hb He Hd Hfuel Hok Hfail visited.
  assert (Hall : Forall (fun v => hook_returns ValidatorType (ValidateAdd v 1)
                                  = true)
                        (successors NativeType (value b) k)).
  { rewrite successors_wrap by assumption.
    apply Forall_fmap, Forall_seqZ. intros i Hi. apply Hok. lia. }
  unfold range_for, bind, alloc, range_begin, range_end.
  cbn [begin_ end_ current_].
  erewrite (range_for_loop_aborts k fuel _ b e); try eassumption;
    [|cbn [heap]; apply lookup_insert_eq].
  eexists. split; [reflexivity|]. cbn [heap hook_trace]. split.
  - subst visited. now rewrite successors_wrap by assumption.
  - rewrite insert_insert_eq. apply lookup_insert_eq.
Qed.

End AssignFacts.

(** ** The default validator *)

Section NeverAborts.

Context {TagType : Tag} {NativeType : IntType}.

Local Abbreviation SI := (StrongInt TagType NativeType NullStrongIntValidator).
Local Abbreviation St := (State TagType NativeType NullStrongIntValidator).
Local Abbreviation MSI := (M TagType NativeType NullStrongIntValidator).













End NeverAborts.

(** ** These statements at concrete values *)

(** X1 at an int8_t object holding 100, [x += y] and [x + y] with y = 100:
    both come to -56. *)
Lemma strong_assign_agrees_with_operator_witness :
  let x : MyStrongInt8 := mkStrongInt 100 in
  let s := mkState {[ 1%positive := x ]} [] in
  In OpAdd [OpAdd; OpSub; OpBitAnd; OpBitOr; OpBitXor] /\
  heap s !! 1%positive = Some x /\
  in_range int8_t 100 /\
  exists assign operator,
    strong_assign OpAdd = Some assign /\
    binary_expr OpAdd (Strong x) (Strong x) = Some operator /\
    assign 1%positive x s =
      (Returned 1%positive,
       mkState (<[1%positive := mkStrongInt (-56)]> (heap s))
               [ValidateAdd 100 100]) /\
    operator s =
      (Returned (mkStrongInt (-56)),
       log s [ValidateAdd 100 100; ValidateInit (-56)]).
Proof.
  intros x s.
  assert (Hop : In OpAdd [OpAdd; OpSub; OpBitAnd; OpBitOr; OpBitXor])
    by (left; reflexivity).
  assert (Hx : heap s !! 1%positive = Some x) by reflexivity.
  assert (H100 : in_range int8_t 100) by (apply in_rangeb_spec; reflexivity).
  split; [exact Hop|]. split; [exact Hx|]. split; [exact H100|].
  destruct (strong_assign_agrees_with_operator OpAdd 1%positive x x s
              Hop Hx H100 H100)
    as (assign & operator & Ha & Ho & Hassign & Hoperator).
  exists assign, operator.
  split; [exact Ha|]. split; [exact Ho|].
  split; [exact Hassign|exact Hoperator].
Defined.

(** X2 at Bytes(3) shifted left by the uint64_t 4. *)
Lemma numeric_assign_agrees_with_operator_witness :
  let x : Bytes := mkStrongInt 3 in
  let s := mkState {[ 1%positive := x ]} [] in
  In OpShl [OpMul; OpDiv; OpMod; OpShl; OpShr] /\
  heap s !! 1%positive = Some x /\
  in_range uint64_t 4 /\
  exists assign operator,
    numeric_assign OpShl = Some assign /\
    binary_expr OpShl (Strong x) (Numeric (mkNum uint64_t 4)) = Some operator /\
    assign 1%positive (mkNum uint64_t 4) s =
      (Returned 1%positive,
       mkState (<[1%positive := mkStrongInt 48]> (heap s))
               [ValidateLeftShift 3 4]) /\
    operator s =
      (Returned (mkStrongInt 48),
       log s [ValidateLeftShift 3 4; ValidateInit 48]).
Proof.
  intros x s.
  assert (Hop : In OpShl [OpMul; OpDiv; OpMod; OpShl; OpShr])
    by (simpl; tauto).
  assert (Hx : heap s !! 1%positive = Some x) by reflexivity.
  assert (H4 : in_range uint64_t 4) by (apply in_rangeb_spec; reflexivity).
  split; [exact Hop|]. split; [exact Hx|]. split; [exact H4|].
  destruct (numeric_assign_agrees_with_operator OpShl 1%positive x
              (mkNum uint64_t 4) s Hop Hx H4)
    as (assign & operator & Ha & Ho & Hassign & Hoperator).
  exists assign, operator.
  split; [exact Ha|]. split; [exact Ho|].
  split; [exact Hassign|exact Hoperator].
Defined.


(** X4 at an int8_t object holding 127, where [++] wraps to -128, and
    y = 100. *)
Lemma mutations_round_trip_witness :
  let x : MyStrongInt8 := mkStrongInt 127 in
  let y : MyStrongInt8 := mkStrongInt 100 in
  let s := mkState {[ 1%positive := x ]} [] in
  heap s !! 1%positive = Some x /\
  in_range int8_t 127 /\ in_range int8_t 100 /\
  (l <- operator_preinc 1%positive ;; operator_predec l) s =
    (Returned 1%positive,
     log s [ValidateAdd 127 1; ValidateSubtract (-128) 1]) /\
  (l <- operator_add_assign 1%positive y ;; operator_sub_assign l y) s =
    (Returned 1%positive,
     log s [ValidateAdd 127 100; ValidateSubtract (-29) 100]).
Proof.
  intros x y s.
  assert (Hx : heap s !! 1%positive = Some x) by reflexivity.
  assert (H127 : in_range int8_t 127) by (apply in_rangeb_spec; reflexivity).
  assert (H100 : in_range int8_t 100) by (apply in_rangeb_spec; reflexivity).
  split; [exact Hx|]. split; [exact H127|]. split; [exact H100|].
  destruct (mutations_round_trip 1%positive x y s Hx H127 H100
              NullStrongIntValidator_returns)
    as (Hinc & Hadd & _).
  split; [exact Hinc|exact Hadd].
Defined.

(** X5 at MyStrongInt8(-128): the negation is 128 as an int, which the
    init hook sees, and -128 once stored. *)
Lemma unary_operators_witness :
  let x : MyStrongInt8 := mkStrongInt (-128) in
  in_range int8_t (-128) /\
  operator_neg x initial_state =
    (Returned (mkStrongInt (-128)),
     log initial_state [ValidateNegate (-128); ValidateInit 128]) /\
  operator_bitnot x initial_state =
    (Returned (mkStrongInt 127),
     log initial_state [ValidateBitNot (-128); ValidateInit 127]) /\
  operator_not x initial_state = (Returned false, initial_state).
Proof.
  intros x.
  assert (Hx : in_range int8_t (-128)) by (apply in_rangeb_spec; reflexivity).
  split; [exact Hx|].
  destruct (unary_operators x initial_state Hx NullStrongIntValidator_returns)
    as (_ & Hneg & Hnot & Hzero & _).
  split; [exact Hneg|]. split; [exact Hnot|exact Hzero].
Defined.

(** X6 at Bytes(7) + 3: no operator. *)
Lemma supported_operations_witness :
  let lhs := Strong (mkStrongInt 7 : Bytes) in
  let rhs := Numeric (mkNum int 3) in
  is_strong lhs || is_strong rhs = true /\
  ~ is_Some (binary_expr OpAdd lhs rhs).
Proof.
  intros lhs rhs.
  assert (Hs : is_strong lhs || is_strong rhs = true) by reflexivity.
  split; [exact Hs|].
  intros Hsome.
  destruct (proj1 (supported_operations OpAdd lhs rhs Hs) Hsome)
    as [Hdoc|(Hmul & _)]; discriminate.
Defined.

(** X7 at Bytes 3, 5, 7. *)
Lemma comparisons_form_a_total_order_witness :
  let x : Bytes := mkStrongInt 3 in
  let y : Bytes := mkStrongInt 5 in
  let z : Bytes := mkStrongInt 7 in
  in_range int64_t 3 /\ in_range int64_t 5 /\ in_range int64_t 7 /\
  STRONG_INT_COMPARISON_OP CmpLt x z initial_state =
    (Returned true, initial_state).
Proof.
  intros x y z.
  assert (H3 : in_range int64_t 3) by (apply in_rangeb_spec; reflexivity).
  assert (H5 : in_range int64_t 5) by (apply in_rangeb_spec; reflexivity).
  assert (H7 : in_range int64_t 7) by (apply in_rangeb_spec; reflexivity).
  split; [exact H3|]. split; [exact H5|]. split; [exact H7|].
  destruct (comparisons_form_a_total_order x y z initial_state H3 H5 H7)
    as (_ & _ & _ & _ & _ & _ & _ & Htrans).
  apply Htrans; reflexivity.
Defined.

(** X8 at Bytes(-1) and Bytes(5): the hash of -1 is 2^64 - 1. *)
Lemma hasher_is_injective_witness :
  let x : Bytes := mkStrongInt (-1) in
  let y : Bytes := mkStrongInt 5 in
  in_range int64_t (-1) /\ in_range int64_t 5 /\
  Hasher x = 18446744073709551615 /\
  static_cast int64_t (Hasher x) = -1.
Proof.
  intros x y.
  assert (Hx : in_range int64_t (-1)) by (apply in_rangeb_spec; reflexivity).
  assert (Hy : in_range int64_t 5) by (apply in_rangeb_spec; reflexivity).
  split; [exact Hx|]. split; [exact Hy|].
  destruct (hasher_is_injective x y Hx Hy) as (_ & _ & Hback & _).
  split; [reflexivity|exact Hback].
Defined.

(** X9 at MyStrongInt8(-1) read as a uint64_t. *)
Lemma widening_accessor_round_trip_witness :
  let x : MyStrongInt8 := mkStrongInt (-1) in
  in_range int8_t (-1) /\ bits int8_t <= bits uint64_t /\
  value_as uint64_t x = 18446744073709551615 /\
  StrongInt_init (mkNum uint64_t (value_as uint64_t x)) initial_state =
    (Returned x, log initial_state [ValidateInit 18446744073709551615]).
Proof.
  intros x.
  assert (Hx : in_range int8_t (-1)) by (apply in_rangeb_spec; reflexivity).
  assert (Hw : bits int8_t <= bits uint64_t) by (vm_compute; discriminate).
  split; [exact Hx|]. split; [exact Hw|].
  destruct (widening_accessor_round_trip uint64_t x initial_state Hx Hw)
    as (Hback & _).
  split; [reflexivity|exact Hback].
Defined.

(** X10 at the range from 126 to -126 over int8_t with a validator that
    is fatal on overflow: the loop stops at 127 instead of wrapping. *)
Lemma range_aborts_where_hook_fails_witness :
  let b : StrongInt "Checked" int8_t (OverflowValidator int8_t) :=
    mkStrongInt 126 in
  let e : StrongInt "Checked" int8_t (OverflowValidator int8_t) :=
    mkStrongInt (-126) in
  in_range int8_t 126 /\ in_range int8_t (-126) /\
  (1 < distance int8_t 126 (-126))%nat /\
  exists s',
    range_for 5 (mkRange (mkIterator b) (mkIterator e)) initial_state =
      (Aborted, s') /\
    hook_trace s' = [ValidateAdd 126 1; ValidateAdd 127 1] /\
    heap s' !! 1%positive = Some (mkStrongInt 127).
Proof.
  intros b e.
  assert (Hb : in_range int8_t 126) by (apply in_rangeb_spec; reflexivity).
  assert (He : in_range int8_t (-126)) by (apply in_rangeb_spec; reflexivity).
  assert (Hd : (1 < distance int8_t 126 (-126))%nat) by (vm_compute; lia).
  split; [exact Hb|]. split; [exact He|]. split; [exact Hd|].
  assert (Hok : forall i, 0 <= i < Z.of_nat 1 ->
            hook_returns (OverflowValidator int8_t)
              (ValidateAdd (static_cast int8_t (126 + i)) 1) = true).
  { intros i Hi. assert (i = 0) as -> by lia. reflexivity. }
  destruct (range_aborts_where_hook_fails 5 1 b e initial_state
              Hb He Hd ltac:(lia) Hok eq_refl)
    as (s' & Hrun & Htrace & Hheap).
  exists s'. split; [exact Hrun|]. split; [exact Htrace|exact Hheap].
Defined.

(** X11 at a store with one int8_t object holding 127: the increment
    keeps it in range. *)
Lemma values_stay_in_range_witness :
  let x : MyStrongInt8 := mkStrongInt 127 in
  let s := mkState {[ 1%positive := x ]} [] in
  heap_in_range s /\
  heap_in_range (snd (operator_preinc 1%positive s)) /\
  heap (snd (operator_preinc 1%positive s)) !! 1%positive =
    Some (mkStrongInt (-128)).
Proof.
  intros x s.
  assert (Hs : heap_in_range s).
  { intros l y Hl. unfold s in Hl. cbn [heap] in Hl.
    apply lookup_singleton_Some in Hl as [_ <-].
    apply in_rangeb_spec. reflexivity. }
  split; [exact Hs|].
  destruct (values_stay_in_range 1%positive s Hs)
    as (_ & _ & _ & _ & _ & Hinc & _).
  split; [exact Hinc|reflexivity].
Defined.

(** X12 at Bytes(-1234). *)
Lemma rendering_reads_back_witness :
  let x : Bytes := mkStrongInt (-1234) in
  in_range int64_t (-1234) /\
  operator_shl_ostream "id="%string x = "id=-1234"%string /\
  read_decimal "-1234"%string = Some (-1234).
Proof.
  intros x.
  assert (Hx : in_range int64_t (-1234)) by (apply in_rangeb_spec; reflexivity).
  split; [exact Hx|].
  destruct (rendering_reads_back "id="%string x x Hx) as (Hshow & Hread & _).
  split; [exact Hshow|exact Hread].
Defined.

